(** * A checkpoint saver over a libSQL store: model of [src/index.ts]

    The class [SqliteSaver] keeps the checkpoints of a graph execution in two
    SQL tables, [checkpoints] and [writes].  This development embeds the
    class in Rocq and proves properties of its five operations.

    How the parts of the program are modelled.

    - Strings are byte strings (their UTF-8 encoding).  The store compares
      TEXT columns bytewise (collation BINARY), which is [String.compare].
    - A table with a PRIMARY KEY is a finite map from the key columns to the
      other columns; INSERT OR REPLACE is the map's insertion.
    - A SELECT visits the rows of a table in the order of the primary key,
      the order of the index the key declares: every statement of the
      program fixes a prefix of the key by equalities.  WHERE, ORDER BY
      and LIMIT are applied to that sequence.
    - An aggregate SELECT without GROUP BY has exactly one result row, also
      over an empty selection.  Its ORDER BY orders that one row; the
      aggregate takes the selected rows in the order of the table.
    - [json_group_array(json_object(...))] read back with [JSON.parse] is the
      list of the objects it transports.
    - Arguments are bound to placeholders by position; an argument that is
      undefined is bound as NULL.  What the executor does with more
      arguments than placeholders is a parameter, [surplus_args].
    - The serializer ([serde]), [copyCheckpoint], [maxChannelVersion],
      [getNextVersion] and the constant [TASKS] come from the checkpoint
      library, they are parameters of the model.  Decoding is total.
    - [setup] only creates the two tables when they are missing; the model
      starts from a store in which both exist.
    - [list] is the list of the tuples the generator yields. *)

From stdpp Require Import base strings list gmap sorting.
From Stdlib Require Import ZArith Lia.
From Ceres Require Ceres.

Local Open Scope string_scope.
Local Open Scope Z_scope.

(** ** Three-way comparisons and the orders they induce *)

Class Compare (A : Type) := cmp : A → A → comparison.
Global Hint Mode Compare ! : typeclass_instances.

Class CompareLaws (A : Type) `{Compare A} := {
  cmp_Eq (x y : A) : cmp x y = Eq → x = y;
  cmp_refl (x : A) : cmp x x = Eq;
  cmp_antisym (x y : A) : cmp x y = CompOpp (cmp y x);
  cmp_Lt_trans (x y z : A) : cmp x y = Lt → cmp y z = Lt → cmp x z = Lt
}.
Global Hint Mode CompareLaws ! - : typeclass_instances.

Definition cleb `{Compare A} (x y : A) : bool :=
  match cmp x y with Gt => false | _ => true end.
Definition cltb `{Compare A} (x y : A) : bool :=
  match cmp x y with Lt => true | _ => false end.

Definition cle `{Compare A} : relation A := λ x y, cleb x y = true.
Definition clt `{Compare A} : relation A := λ x y, cltb x y = true.

Global Instance cle_dec `{Compare A} : RelDecision (cle (A:=A)).
Proof. intros x y. unfold cle. apply _. Defined.
Global Instance clt_dec `{Compare A} : RelDecision (clt (A:=A)).
Proof. intros x y. unfold clt. apply _. Defined.

Global Instance string_compare : Compare string := String.compare.
Global Instance Z_compare : Compare Z := Z.compare.

(** The composite order of a multi-column key: leftmost column first. *)
Global Instance prod_compare `{Compare A, Compare B} : Compare (A * B) :=
  λ p q, match cmp p.1 q.1 with Eq => cmp p.2 q.2 | o => o end.

Section compare_laws.
Context `{CompareLaws A}.

Lemma cle_refl (x : A) : cle x x.
Proof. unfold cle, cleb. by rewrite cmp_refl. Qed.

Lemma clt_cle (x y : A) : clt x y → cle x y.
Proof. unfold clt, cle, cltb, cleb. by destruct (cmp x y). Qed.

Lemma cle_clt_or_eq (x y : A) : cle x y → clt x y ∨ x = y.
Proof.
  unfold clt, cle, cltb, cleb. destruct (cmp x y) eqn:E; try done.
  - right. by apply cmp_Eq.
  - by left.
Qed.

Lemma clt_irrefl (x : A) : ¬ clt x x.
Proof. unfold clt, cltb. by rewrite cmp_refl. Qed.

Lemma clt_not_cle (x y : A) : clt x y → ¬ cle y x.
Proof.
  unfold clt, cle, cltb, cleb. rewrite (cmp_antisym y x).
  by destruct (cmp x y).
Qed.

Global Instance clt_trans : Transitive (clt (A:=A)).
Proof.
  intros x y z. unfold clt, cltb.
  destruct (cmp x y) eqn:E1; try done. destruct (cmp y z) eqn:E2; try done.
  by rewrite (cmp_Lt_trans x y z).
Qed.

Global Instance cle_trans : Transitive (cle (A:=A)).
Proof.
  intros x y z Hxy Hyz.
  destruct (cle_clt_or_eq _ _ Hxy) as [Hlt1| ->]; [|done].
  destruct (cle_clt_or_eq _ _ Hyz) as [Hlt2| <-]; [|done].
  apply clt_cle. by trans y.
Qed.

Global Instance cle_total : Total (cle (A:=A)).
Proof.
  intros x y. unfold cle, cleb. rewrite (cmp_antisym y x).
  destruct (cmp x y); auto.
Qed.

Global Instance cle_antisymm : AntiSymm (=) (cle (A:=A)).
Proof.
  intros x y Hxy Hyx. destruct (cle_clt_or_eq _ _ Hxy) as [Hlt|]; [|done].
  by destruct (clt_not_cle _ _ Hlt).
Qed.

End compare_laws.

Lemma ascii_compare_refl (a : Ascii.ascii) : Ascii.compare a a = Eq.
Proof. apply N.compare_refl. Qed.

Lemma ascii_compare_Lt_trans (a b c : Ascii.ascii) :
  Ascii.compare a b = Lt → Ascii.compare b c = Lt → Ascii.compare a c = Lt.
Proof. unfold Ascii.compare. rewrite !N.compare_lt_iff. lia. Qed.

Global Instance string_compare_laws : CompareLaws string.
Proof.
  split; unfold cmp, string_compare.
  - apply String.compare_eq_iff.
  - intros x. induction x as [|a x IH]; simpl; [done|].
    by rewrite ascii_compare_refl.
  - apply String.compare_antisym.
  - intros x. induction x as [|a x IH]; intros [|b y] [|c z]; simpl; try done.
    destruct (Ascii.compare a b) eqn:E1; try done.
    + apply Ascii.compare_eq_iff in E1 as ->.
      destruct (Ascii.compare b c); try done. apply IH.
    + intros _. destruct (Ascii.compare b c) eqn:E2; try done.
      * apply Ascii.compare_eq_iff in E2 as <-. by rewrite E1.
      * by rewrite (ascii_compare_Lt_trans a b c).
Qed.

Global Instance Z_compare_laws : CompareLaws Z.
Proof.
  split; unfold cmp, Z_compare.
  - intros x y. apply Z.compare_eq_iff.
  - apply Z.compare_refl.
  - intros x y. apply Z.compare_antisym.
  - intros x y z. rewrite !Z.compare_lt_iff. lia.
Qed.

Global Instance prod_compare_laws `{CompareLaws A, CompareLaws B} :
  CompareLaws (A * B).
Proof.
  split; unfold cmp, prod_compare.
  - intros [a b] [c d]; simpl. destruct (cmp a c) eqn:E; try done.
    intros E'. by rewrite (cmp_Eq _ _ E), (cmp_Eq _ _ E').
  - intros [a b]; simpl. by rewrite !cmp_refl.
  - intros [a b] [c d]; simpl. rewrite (cmp_antisym a c), (cmp_antisym b d).
    by destruct (cmp c a).
  - intros [a b] [c d] [e f]; simpl.
    destruct (cmp a c) eqn:E1; try done.
    + apply cmp_Eq in E1 as ->. destruct (cmp c e); try done.
      apply cmp_Lt_trans.
    + intros _. destruct (cmp c e) eqn:E2; try done.
      * apply cmp_Eq in E2 as <-. by rewrite E1.
      * by rewrite (cmp_Lt_trans a c e).
Qed.

(** ** Tables with a primary key

    [table_rows] is the sequence in which a SELECT visits the rows: the
    order of the primary key.  *)

Section table.
Context `{Countable K} `{!Compare K, !CompareLaws K} {V : Type}.

Definition key_le : relation (K * V) := λ r1 r2, cle r1.1 r2.1.
Definition key_lt : relation (K * V) := λ r1 r2, clt r1.1 r2.1.

Global Instance key_le_dec : RelDecision key_le.
Proof. intros r1 r2. unfold key_le. apply _. Defined.

Definition table_rows (t : gmap K V) : list (K * V) :=
  merge_sort key_le (map_to_list t).

Global Instance key_le_trans : Transitive key_le.
Proof. intros r1 r2 r3. unfold key_le. apply cle_trans. Qed.
Global Instance key_le_total : Total key_le.
Proof. intros r1 r2. unfold key_le. apply cle_total. Qed.
Global Instance key_lt_trans : Transitive key_lt.
Proof. intros r1 r2 r3. unfold key_lt. apply clt_trans. Qed.

Lemma elem_of_table_rows (t : gmap K V) k v :
  (k, v) ∈ table_rows t ↔ t !! k = Some v.
Proof.
  unfold table_rows. rewrite merge_sort_Permutation.
  apply elem_of_map_to_list.
Qed.

Lemma is_Some_lookup_table_rows (t : gmap K V) k :
  is_Some (t !! k) ↔ k ∈ (table_rows t).*1.
Proof.
  rewrite list_elem_of_fmap. split.
  - intros [v Hv]. exists (k, v). split; [done|]. by apply elem_of_table_rows.
  - intros ([k' v] & -> & Hin). exists v. by apply elem_of_table_rows.
Qed.

Lemma NoDup_fst_table_rows (t : gmap K V) : NoDup (table_rows t).*1.
Proof.
  unfold table_rows. rewrite merge_sort_Permutation.
  apply NoDup_fst_map_to_list.
Qed.

Lemma NoDup_table_rows (t : gmap K V) : NoDup (table_rows t).
Proof. apply (NoDup_fmap_1 fst), NoDup_fst_table_rows. Qed.

Lemma key_le_lt_sorted (l : list (K * V)) :
  NoDup l.*1 → StronglySorted key_le l → StronglySorted key_lt l.
Proof.
  induction l as [|r l IH]; intros Hnd Hs; [constructor|].
  apply NoDup_cons in Hnd as [Hr Hnd]. apply StronglySorted_inv in Hs as [Hs Hall].
  constructor; [by apply IH|].
  apply Forall_forall. intros r' Hr'.
  rewrite Forall_forall in Hall. specialize (Hall r' Hr').
  destruct (cle_clt_or_eq _ _ Hall) as [Hlt|Heq]; [done|].
  destruct Hr. rewrite Heq. by apply list_elem_of_fmap_2.
Qed.

(** The rows come out strictly increasing in the key. *)
Lemma table_rows_sorted (t : gmap K V) : StronglySorted key_lt (table_rows t).
Proof.
  apply key_le_lt_sorted; [apply NoDup_fst_table_rows|].
  apply (StronglySorted_merge_sort key_le).
Qed.

Lemma StronglySorted_filter {A} (R : relation A) (P : A → Prop)
    `{∀ x, Decision (P x)} (l : list A) :
  StronglySorted R l → StronglySorted R (filter P l).
Proof.
  induction 1 as [|x l Hs IH Hall]; [constructor|].
  rewrite filter_cons. case_decide; [|done].
  constructor; [done|].
  apply Forall_forall. intros y [_ Hy]%list_elem_of_filter.
  rewrite Forall_forall in Hall. by apply Hall.
Qed.

Lemma key_lt_sorted_unique (l1 l2 : list (K * V)) :
  StronglySorted key_lt l1 → StronglySorted key_lt l2 →
  NoDup l1 → NoDup l2 → (∀ r, r ∈ l1 ↔ r ∈ l2) → l1 = l2.
Proof.
  intros Hs1 Hs2 Hn1 Hn2 Hiff.
  apply (StronglySorted_unique_strong key_lt); [|done|done|].
  - intros r1 r2 _ _ Hlt1 Hlt2. unfold key_lt in *.
    destruct (clt_irrefl r1.1). by trans r2.1.
  - by apply NoDup_Permutation.
Qed.

Lemma key_lt_sorted_NoDup (l : list (K * V)) :
  StronglySorted key_lt l → NoDup l.
Proof.
  induction 1 as [|r l Hs IH Hall]; constructor; [|done].
  intros Hin. rewrite Forall_forall in Hall.
  by apply (clt_irrefl r.1), (Hall r).
Qed.

(** A selection from a table is determined by its rows: any strictly
    increasing list with the same members is the selection. *)
Lemma table_rows_filter_eq (P : K * V → Prop) `{∀ r, Decision (P r)}
    (t : gmap K V) (l : list (K * V)) :
  StronglySorted key_lt l →
  (∀ k v, (k, v) ∈ l ↔ P (k, v) ∧ t !! k = Some v) →
  filter P (table_rows t) = l.
Proof.
  intros Hs Hiff. apply key_lt_sorted_unique.
  - apply StronglySorted_filter, table_rows_sorted.
  - done.
  - apply NoDup_filter, NoDup_table_rows.
  - by apply key_lt_sorted_NoDup.
  - intros [k v]. by rewrite list_elem_of_filter, elem_of_table_rows, Hiff.
Qed.
End table.

(** ** JavaScript values *)

Definition bytes := list Byte.byte.

(** A JavaScript object is the list of its own properties, in insertion
    order, the order of [Object.keys] and [Object.values]. *)
Definition obj (A : Type) := list (string * A).

Fixpoint obj_get {A} (k : string) (o : obj A) : option A :=
  match o with
  | [] => None
  | (k', x) :: o' => if decide (k' = k) then Some x else obj_get k o'
  end.

(** [o[k] = x]: an existing property keeps its place, a new one goes last. *)
Fixpoint obj_set {A} (k : string) (x : A) (o : obj A) : obj A :=
  match o with
  | [] => [(k, x)]
  | (k', y) :: o' =>
      if decide (k' = k) then (k, x) :: o' else (k', y) :: obj_set k x o'
  end.

Definition Object_keys {A} (o : obj A) : list string := o.*1.
Definition Object_values {A} (o : obj A) : list A := o.*2.

#[warnings="-register-all"]
Inductive Value :=
  | VNull
  | VBool (b : bool)
  | VNum (n : Z)
  | VStr (s : string)
  | VArr (l : list Value)
  | VObj (o : list (string * Value)).

(** [if (s)] on a string that may be undefined. *)
Definition truthy (s : option string) : bool :=
  match s with
  | Some s => if decide (s = "") then false else true
  | None => false
  end.

Inductive result (A : Type) :=
  | Ok (a : A)
  | Err (message : string).
Arguments Ok {A} a.
Arguments Err {A} message.

(** ** The types of the checkpoint library *)

(** [ChannelVersion = number | string] *)
Inductive ChannelVersion :=
  | VerNum (n : Z)
  | VerStr (s : string).

Record Checkpoint := {
  cp_v : Z;
  cp_id : string;
  cp_ts : string;
  channel_values : obj Value;
  channel_versions : obj ChannelVersion;
  versions_seen : obj (obj ChannelVersion)
}.

Record CheckpointMetadata := {
  md_source : string;
  md_step : Z;
  md_parents : obj string
}.

Record Configurable := {
  thread_id : option string;
  checkpoint_ns : option string;
  checkpoint_id : option string
}.

Record RunnableConfig := { configurable : option Configurable }.

(** [PendingWrite = [channel, value]] *)
Definition PendingWrite : Type := string * Value.

Record CheckpointTuple := {
  config : RunnableConfig;
  checkpoint : Checkpoint;
  metadata : CheckpointMetadata;
  parentConfig : option RunnableConfig;
  pendingWrites : list (string * string * Value)
}.

Record CheckpointListOptions := {
  opt_limit : option Z;
  opt_before : option RunnableConfig;
  opt_filter : option (obj (option Value))
}.

(** [SerializerProtocol]: [dumpsTyped] gives a type tag and the bytes,
    [loadsTyped] takes a tag and a text, each a string or null as the
    caller passes them. *)
Class SerializerProtocol (A : Type) := {
  dumpsTyped : A → string * bytes;
  loadsTyped : option string → option string → A
}.

(** ** The store *)

(** The value of a BLOB column: NULL, a text or a byte buffer. *)
Inductive SqlValue :=
  | SqlNull
  | SqlText (s : string)
  | SqlBlob (b : bytes).

Definition blobToString (val : SqlValue) : string :=
  match val with
  | SqlBlob b => String.string_of_list_byte b
  | SqlText s => s
  | SqlNull => ""
  end.

(** [CAST(x AS TEXT)] *)
Definition cast_as_text (val : SqlValue) : option string :=
  match val with
  | SqlBlob b => Some (String.string_of_list_byte b)
  | SqlText s => Some s
  | SqlNull => None
  end.

(** Table [checkpoints], PRIMARY KEY (thread_id, checkpoint_ns, checkpoint_id). *)
Abbreviation CheckpointKey := (string * string * string)%type.

Record CheckpointCols := {
  c_parent_checkpoint_id : option string;
  c_type : option string;
  c_checkpoint : SqlValue;
  c_metadata : SqlValue
}.

(** Table [writes],
    PRIMARY KEY (thread_id, checkpoint_ns, checkpoint_id, task_id, idx). *)
Abbreviation WriteKey := (string * string * string * string * Z)%type.

Record WriteCols := {
  w_channel : string;
  w_type : option string;
  w_value : SqlValue
}.

Definition wk_thread_id (k : WriteKey) : string := k.1.1.1.1.
Definition wk_checkpoint_ns (k : WriteKey) : string := k.1.1.1.2.
Definition wk_checkpoint_id (k : WriteKey) : string := k.1.1.2.
Definition wk_task_id (k : WriteKey) : string := k.1.2.
Definition wk_idx (k : WriteKey) : Z := k.2.

Record Db := {
  checkpoints : gmap (string * string * string) CheckpointCols;
  writes : gmap (string * string * string * string * Z) WriteCols
}.

Definition empty_db : Db := {| checkpoints := ∅; writes := ∅ |}.

(** The objects of the two JSON arrays a checkpoint row carries, and the
    result rows of the two SELECT statements. *)
Record PendingWriteColumn := {
  pw_task_id : string;
  pw_channel : string;
  pw_type : option string;
  pw_value : option string
}.

Record PendingSendColumn := {
  ps_type : option string;
  ps_value : option string
}.

Record CheckpointRow := {
  row_thread_id : string;
  row_checkpoint_ns : string;
  row_checkpoint_id : string;
  row_parent_checkpoint_id : option string;
  row_type : option string;
  row_checkpoint : SqlValue;
  row_metadata : SqlValue;
  row_pending_writes : list PendingWriteColumn;
  row_pending_sends : list PendingSendColumn
}.

Record MigrationRow := { mig_pending_sends : list PendingSendColumn }.

(** A SELECT over [checkpoints] as the program assembles it: the
    conjuncts of WHERE, each with one placeholder, whether ORDER BY
    checkpoint_id DESC is present, and the LIMIT. *)
Inductive WherePred :=
  | WThreadId
  | WCheckpointNs
  | WCheckpointId
  | WBefore
  | WMetadata (key : string).

Record Select := {
  sel_where : list WherePred;
  sel_order_desc : bool;
  sel_limit : option Z
}.

(** What the executor does with more arguments than placeholders. *)
Inductive SurplusArgs := SurplusRejected | SurplusIgnored.

Definition validCheckpointMetadataKeys : list string :=
  ["source"; "step"; "parents"].

(** The sort key of ORDER BY checkpoint_id DESC. *)
Definition checkpoint_id_ge : relation (CheckpointKey * CheckpointCols) :=
  λ r1 r2, cle r2.1.2 r1.1.2.

Global Instance checkpoint_id_ge_dec : RelDecision checkpoint_id_ge.
Proof. intros r1 r2. unfold checkpoint_id_ge. apply _. Defined.

(** ** The class [SqliteSaver] *)

Section SqliteSaver.
Context `{!SerializerProtocol Checkpoint}.
Context `{!SerializerProtocol CheckpointMetadata}.
Context `{!SerializerProtocol Value}.

(** The reserved channel name, [copyCheckpoint] and [maxChannelVersion] of
    the checkpoint library, [getNextVersion] of the base class. *)
Variable TASKS : string.
Variable copyCheckpoint : Checkpoint → Checkpoint.
Variable maxChannelVersion : list ChannelVersion → ChannelVersion.
Variable getNextVersion : option ChannelVersion → ChannelVersion.

(** [JSON.stringify], and the engine's test
    [jsonb(CAST(metadata AS TEXT))->'$.key' = ?] on a metadata column. *)
Variable JSON_stringify : Value → string.
Variable metadata_field_eq : SqlValue → string → string → bool.

Variable surplus_args : SurplusArgs.

(** *** The SQL statements *)

(** One conjunct of WHERE with its bound argument.  A comparison with
    NULL, and so with an unbound placeholder, is not true. *)
Definition where_holds (r : CheckpointKey * CheckpointCols)
    (p : WherePred * option string) : bool :=
  match p.2 with
  | None => false
  | Some a =>
      match p.1 with
      | WThreadId => bool_decide (r.1.1.1 = a)
      | WCheckpointNs => bool_decide (r.1.1.2 = a)
      | WCheckpointId => bool_decide (r.1.2 = a)
      | WBefore => cltb r.1.2 a
      | WMetadata key => metadata_field_eq (c_metadata r.2) key a
      end
  end.

(** Placeholders take the arguments by position. *)
Fixpoint bind_params (preds : list WherePred) (args : list (option string))
    : list (WherePred * option string) :=
  match preds, args with
  | [], _ => []
  | p :: preds', [] => (p, None) :: bind_params preds' []
  | p :: preds', a :: args' => (p, a) :: bind_params preds' args'
  end.

Definition pending_write_column (r : WriteKey * WriteCols) : PendingWriteColumn :=
  {| pw_task_id := wk_task_id r.1;
     pw_channel := w_channel r.2;
     pw_type := w_type r.2;
     pw_value := cast_as_text (w_value r.2) |}.

Definition pending_send_column (r : WriteKey * WriteCols) : PendingSendColumn :=
  {| ps_type := w_type r.2;
     ps_value := cast_as_text (w_value r.2) |}.

(** The rows of [writes] recorded under one checkpoint. *)
Definition writes_of_checkpoint (thread ns id : string)
    (r : WriteKey * WriteCols) : Prop :=
  wk_thread_id r.1 = thread ∧ wk_checkpoint_ns r.1 = ns ∧
  wk_checkpoint_id r.1 = id.

Global Instance writes_of_checkpoint_dec thread ns id r :
  Decision (writes_of_checkpoint thread ns id r).
Proof. unfold writes_of_checkpoint. apply _. Defined.

(** The subquery [pending_writes] of a checkpoint row: it has no ORDER BY,
    the rows are aggregated as the table gives them. *)
Definition select_pending_writes (db : Db) (thread ns id : string)
    : list PendingWriteColumn :=
  pending_write_column <$>
    filter (writes_of_checkpoint thread ns id) (table_rows (writes db)).

(** The subquery [pending_sends] of a checkpoint row.  Its ORDER BY
    ps.idx orders the rows of the result, and the result of an aggregate
    without GROUP BY is one row: the rows of [writes] are aggregated as
    the table gives them.  No row of [writes] has the checkpoint id NULL,
    so a root checkpoint gets the empty array.  The program selects this
    column and does not read it. *)
Definition select_pending_sends (db : Db) (thread ns : string)
    (parent : option string) : list PendingSendColumn :=
  match parent with
  | None => []
  | Some p =>
      pending_send_column <$>
        filter (λ r, writes_of_checkpoint thread ns p r ∧ w_channel r.2 = TASKS)
          (table_rows (writes db))
  end.

Definition checkpoint_row (db : Db) (r : CheckpointKey * CheckpointCols)
    : CheckpointRow :=
  {| row_thread_id := r.1.1.1;
     row_checkpoint_ns := r.1.1.2;
     row_checkpoint_id := r.1.2;
     row_parent_checkpoint_id := c_parent_checkpoint_id r.2;
     row_type := c_type r.2;
     row_checkpoint := c_checkpoint r.2;
     row_metadata := c_metadata r.2;
     row_pending_writes := select_pending_writes db r.1.1.1 r.1.1.2 r.1.2;
     row_pending_sends :=
       select_pending_sends db r.1.1.1 r.1.1.2 (c_parent_checkpoint_id r.2) |}.

(** [ORDER BY checkpoint_id DESC] *)
Definition order_by_checkpoint_id_desc (rows : list (CheckpointKey * CheckpointCols))
    : list (CheckpointKey * CheckpointCols) :=
  merge_sort checkpoint_id_ge rows.

(** [LIMIT n]; a negative [n] is no limit. *)
Definition sql_limit {A} (n : option Z) (rows : list A) : list A :=
  match n with
  | None => rows
  | Some n => if decide (n < 0) then rows else take (Z.to_nat n) rows
  end.

Definition selected (sql : Select) (args : list (option string))
    (r : CheckpointKey * CheckpointCols) : Prop :=
  forallb (where_holds r) (bind_params (sel_where sql) args) = true.

Global Instance selected_dec sql args r : Decision (selected sql args r).
Proof. unfold selected. apply _. Defined.

(** [db.execute({sql, args})] for a SELECT over [checkpoints]. *)
Definition execute (db : Db) (sql : Select) (args : list (option string))
    : result (list CheckpointRow) :=
  let rows := filter (selected sql args) (table_rows (checkpoints db)) in
  let ordered :=
    if sel_order_desc sql then order_by_checkpoint_id_desc rows else rows in
  let answer := Ok (checkpoint_row db <$> sql_limit (sel_limit sql) ordered) in
  match surplus_args with
  | SurplusIgnored => answer
  | SurplusRejected =>
      if decide (length (sel_where sql) < length args)%nat
      then Err "too many arguments for the statement"
      else answer
  end.

(** The SELECT of [migratePendingSends].  [json_group_array] is an
    aggregate and the statement has no GROUP BY: the result is one row,
    also when no row of [writes] is selected, and then [pending_sends] is
    the empty array.  ORDER BY ps.idx orders that one row; the selected
    rows are aggregated as the table gives them, by namespace, task id
    and index. *)
Definition select_migration (db : Db) (threadId parentCheckpointId : string)
    : list MigrationRow :=
  [ {| mig_pending_sends :=
         pending_send_column <$>
           filter (λ r, wk_thread_id r.1 = threadId ∧
                        wk_checkpoint_id r.1 = parentCheckpointId ∧
                        w_channel r.2 = TASKS)
             (table_rows (writes db)) |} ].

(** *** The methods *)

(** [channel_values ??= {}] does nothing to a checkpoint of the type
    [Checkpoint], which always has its channel values.  The right-hand
    side of the assignment to [channel_versions[TASKS]] is evaluated
    before the assignment, on the versions as they were. *)
Definition migratePendingSends (db : Db) (checkpoint : Checkpoint)
    (threadId parentCheckpointId : string) : Checkpoint :=
  match select_migration db threadId parentCheckpointId with
  | [] => checkpoint
  | row :: _ =>
      let sends :=
        (λ s, loadsTyped (ps_type s) (ps_value s)) <$> mig_pending_sends row in
      let version :=
        if decide (0 < length (Object_keys (channel_versions checkpoint)))%nat
        then maxChannelVersion (Object_values (channel_versions checkpoint))
        else getNextVersion None in
      {| cp_v := cp_v checkpoint;
         cp_id := cp_id checkpoint;
         cp_ts := cp_ts checkpoint;
         channel_values := obj_set TASKS (VArr sends) (channel_values checkpoint);
         channel_versions := obj_set TASKS version (channel_versions checkpoint);
         versions_seen := versions_seen checkpoint |}
  end.

Definition decode_pending_writes (row : CheckpointRow)
    : list (string * string * Value) :=
  (λ write,
     (pw_task_id write, pw_channel write,
      loadsTyped (Some (default "json" (pw_type write)))
                 (Some (default "" (pw_value write)))))
    <$> row_pending_writes row.

(** Decoding of the checkpoint column, then the migration when the
    checkpoint is older than version 4 and has a parent. *)
Definition decode_checkpoint (db : Db) (row : CheckpointRow) : Checkpoint :=
  let checkpoint : Checkpoint :=
    loadsTyped (Some (default "json" (row_type row)))
               (Some (blobToString (row_checkpoint row))) in
  match row_parent_checkpoint_id row with
  | Some parent =>
      if decide (cp_v checkpoint < 4)
      then migratePendingSends db checkpoint (row_thread_id row) parent
      else checkpoint
  | None => checkpoint
  end.

Definition decode_metadata (row : CheckpointRow) : CheckpointMetadata :=
  loadsTyped (Some (default "json" (row_type row)))
             (Some (blobToString (row_metadata row))).

Definition no_configurable : Configurable :=
  {| thread_id := None; checkpoint_ns := None; checkpoint_id := None |}.

Definition getTuple (db : Db) (config : RunnableConfig)
    : result (option CheckpointTuple) :=
  let c := default no_configurable (configurable config) in
  let checkpoint_ns_ := default "" (checkpoint_ns c) in
  let args :=
    ([thread_id c; Some checkpoint_ns_] ++
     (if truthy (checkpoint_id c) then [checkpoint_id c] else []))%list in
  let sql :=
    if truthy (checkpoint_id c)
    then {| sel_where := [WThreadId; WCheckpointNs; WCheckpointId];
            sel_order_desc := false; sel_limit := None |}
    else {| sel_where := [WThreadId; WCheckpointNs];
            sel_order_desc := true; sel_limit := Some 1 |} in
  match execute db sql args with
  | Err e => Err e
  | Ok [] => Ok None
  | Ok (row :: _) =>
      let finalConfig :=
        if truthy (checkpoint_id c) then config
        else {| configurable := Some
                  {| thread_id := Some (row_thread_id row);
                     checkpoint_ns := Some checkpoint_ns_;
                     checkpoint_id := Some (row_checkpoint_id row) |} |} in
      match configurable finalConfig ≫= thread_id,
            configurable finalConfig ≫= checkpoint_id with
      | Some _, Some _ =>
          Ok (Some
            {| checkpoint := decode_checkpoint db row;
               config := finalConfig;
               metadata := decode_metadata row;
               parentConfig :=
                 if truthy (row_parent_checkpoint_id row)
                 then Some {| configurable := Some
                        {| thread_id := Some (row_thread_id row);
                           checkpoint_ns := Some checkpoint_ns_;
                           checkpoint_id := row_parent_checkpoint_id row |} |}
                 else None;
               pendingWrites := decode_pending_writes row |})
      | _, _ => Err "Missing thread_id or checkpoint_id"
      end
  end.

(** The entries of the [filter] option that reach the statement: those
    with a defined value and a key of the metadata schema. *)
Definition sanitizedFilter (filter_ : option (obj (option Value)))
    : list (string * Value) :=
  omap (λ e : string * option Value,
          match e.2 with
          | Some value =>
              if decide (e.1 ∈ validCheckpointMetadataKeys)
              then Some (e.1, value) else None
          | None => None
          end)
       (default [] filter_).

Definition list_tuple (db : Db) (row : CheckpointRow) : CheckpointTuple :=
  {| config := {| configurable := Some
       {| thread_id := Some (row_thread_id row);
          checkpoint_ns := Some (row_checkpoint_ns row);
          checkpoint_id := Some (row_checkpoint_id row) |} |};
     checkpoint := decode_checkpoint db row;
     metadata := decode_metadata row;
     parentConfig :=
       if truthy (row_parent_checkpoint_id row)
       then Some {| configurable := Some
              {| thread_id := Some (row_thread_id row);
                 checkpoint_ns := Some (row_checkpoint_ns row);
                 checkpoint_id := row_parent_checkpoint_id row |} |}
       else None;
     pendingWrites := decode_pending_writes row |}.

(** [list]: the tuples the generator yields, in order. *)
Definition list_ (db : Db) (config : RunnableConfig)
    (options : option CheckpointListOptions) : result (list CheckpointTuple) :=
  let limit : option Z := options ≫= opt_limit in
  let before : option RunnableConfig := options ≫= opt_before in
  let filter_ : list (string * Value) := sanitizedFilter (options ≫= opt_filter) in
  let thread_id_ : option string := configurable config ≫= thread_id in
  let checkpoint_ns_ : option string := configurable config ≫= checkpoint_ns in
  let before_id : option string := (before ≫= configurable) ≫= checkpoint_id in
  let whereClause :=
    ((if truthy thread_id_ then [WThreadId] else []) ++
     (if checkpoint_ns_ is Some _ then [WCheckpointNs] else []) ++
     (if before_id is Some _ then [WBefore] else []) ++
     ((λ e : string * Value, WMetadata e.1) <$> filter_))%list in
  let sql :=
    {| sel_where := whereClause;
       sel_order_desc := true;
       sel_limit :=
         match limit with
         | Some n => if decide (n = 0) then None else Some n
         | None => None
         end |} in
  let args :=
    ((Some <$> omap id [thread_id_; checkpoint_ns_; before_id]) ++
     ((λ e : string * Value, Some (JSON_stringify e.2)) <$> filter_))%list in
  match execute db sql args with
  | Err e => Err e
  | Ok rows => Ok (list_tuple db <$> rows)
  end.

Definition put (db : Db) (config : RunnableConfig) (checkpoint : Checkpoint)
    (metadata : CheckpointMetadata) : result (Db * RunnableConfig) :=
  match configurable config with
  | None => Err "Empty configuration supplied."
  | Some c =>
      let checkpoint_ns_ := default "" (checkpoint_ns c) in
      let parent_checkpoint_id := checkpoint_id c in
      match thread_id c with
      | Some thread_id_ =>
          if decide (thread_id_ = "")
          then Err "Missing thread_id field in passed config.configurable."
          else
            let preparedCheckpoint := copyCheckpoint checkpoint in
            let '(type1, serializedCheckpoint) := dumpsTyped preparedCheckpoint in
            let '(type2, serializedMetadata) := dumpsTyped metadata in
            if decide (type1 = type2)
            then Ok
              ({| checkpoints :=
                    <[ (thread_id_, checkpoint_ns_, cp_id checkpoint) :=
                       {| c_parent_checkpoint_id := parent_checkpoint_id;
                          c_type := Some type1;
                          c_checkpoint := SqlBlob serializedCheckpoint;
                          c_metadata := SqlBlob serializedMetadata |} ]>
                    (checkpoints db);
                  writes := writes db |},
               {| configurable := Some
                    {| thread_id := Some thread_id_;
                       checkpoint_ns := Some checkpoint_ns_;
                       checkpoint_id := Some (cp_id checkpoint) |} |})
            else Err "Failed to serialized checkpoint and metadata to the same type."
      | None => Err "Missing thread_id field in passed config.configurable."
      end
  end.

(** The INSERT OR REPLACE statements of one [putWrites], in order. *)
Definition write_statement (thread ns id taskId : string)
    (idx : nat) (write : PendingWrite) : WriteKey * WriteCols :=
  let '(type, serializedWrite) := dumpsTyped write.2 in
  ((thread, ns, id, taskId, Z.of_nat idx),
   {| w_channel := write.1;
      w_type := Some type;
      w_value := SqlBlob serializedWrite |}).

Definition write_statements (thread ns id taskId : string)
    (writes_ : list PendingWrite) : list (WriteKey * WriteCols) :=
  imap (write_statement thread ns id taskId) writes_.

(** [db.batch(statements, "write")] *)
Definition batch_insert (statements : list (WriteKey * WriteCols))
    (t : gmap (string * string * string * string * Z) WriteCols)
    : gmap (string * string * string * string * Z) WriteCols :=
  foldl (λ t s, <[ s.1 := s.2 ]> t) t statements.

Definition putWrites (db : Db) (config : RunnableConfig)
    (writes_ : list PendingWrite) (taskId : string) : result Db :=
  match configurable config with
  | None => Err "Empty configuration supplied."
  | Some c =>
      if truthy (thread_id c) then
        if truthy (checkpoint_id c) then
          Ok {| checkpoints := checkpoints db;
                writes :=
                  batch_insert
                    (write_statements (default "" (thread_id c))
                       (default "" (checkpoint_ns c))
                       (default "" (checkpoint_id c)) taskId writes_)
                    (writes db) |}
        else Err "Missing checkpoint_id field in config.configurable."
      else Err "Missing thread_id field in config.configurable."
  end.

Definition deleteThread (db : Db) (threadId : string) : Db :=
  {| checkpoints := filter (λ r, r.1.1.1 ≠ threadId) (checkpoints db);
     writes := filter (λ r, wk_thread_id r.1 ≠ threadId) (writes db) |}.

(** ** Properties of the statements *)

Lemma execute_aligned db sql args :
  (length args ≤ length (sel_where sql))%nat →
  execute db sql args =
    Ok (checkpoint_row db <$>
        sql_limit (sel_limit sql)
          (if sel_order_desc sql
           then order_by_checkpoint_id_desc
                  (filter (selected sql args) (table_rows (checkpoints db)))
           else filter (selected sql args) (table_rows (checkpoints db)))).
Proof.
  intros Hlen. unfold execute. destruct surplus_args; [|done].
  case_decide; [lia|done].
Qed.

Global Instance checkpoint_id_ge_trans : Transitive checkpoint_id_ge.
Proof. intros r1 r2 r3 H12 H23. unfold checkpoint_id_ge in *. by trans r2.1.2. Qed.

Global Instance checkpoint_id_ge_total : Total checkpoint_id_ge.
Proof. intros r1 r2. unfold checkpoint_id_ge. destruct (total cle r1.1.2 r2.1.2); auto. Qed.

Lemma order_by_checkpoint_id_desc_sorted rows :
  StronglySorted checkpoint_id_ge (order_by_checkpoint_id_desc rows).
Proof. apply (StronglySorted_merge_sort checkpoint_id_ge). Qed.

Lemma order_by_checkpoint_id_desc_perm rows :
  order_by_checkpoint_id_desc rows ≡ₚ rows.
Proof. apply merge_sort_Permutation. Qed.

Definition by_key : Select :=
  {| sel_where := [WThreadId; WCheckpointNs; WCheckpointId];
     sel_order_desc := false; sel_limit := None |}.

Definition latest : Select :=
  {| sel_where := [WThreadId; WCheckpointNs];
     sel_order_desc := true; sel_limit := Some 1 |}.

Lemma filter_none {A} (P : A → Prop) `{∀ x, Decision (P x)} (l : list A) :
  (∀ x, x ∈ l → ¬ P x) → filter P l = [].
Proof.
  induction l as [|x l IH]; intros Hno; [done|].
  rewrite filter_cons_False by (apply Hno; left).
  apply IH. intros y Hy. apply Hno. by right.
Qed.

(** ** [getTuple]: the latest checkpoint, and absence (C7) *)

(** The rows a config addresses: those of its partition, and of its
    checkpoint id when it carries one. *)
Definition matching (k : Configurable) (key : CheckpointKey) : Prop :=
  thread_id k = Some key.1.1 ∧
  key.1.2 = default "" (checkpoint_ns k) ∧
  (truthy (checkpoint_id k) = true → checkpoint_id k = Some key.2).

Global Instance matching_dec k key : Decision (matching k key).
Proof. unfold matching. apply _. Defined.

Definition getTuple_sql (k : Configurable) : Select :=
  if truthy (checkpoint_id k) then by_key else latest.

Definition getTuple_args (k : Configurable) : list (option string) :=
  ([thread_id k; Some (default "" (checkpoint_ns k))] ++
   (if truthy (checkpoint_id k) then [checkpoint_id k] else []))%list.

Lemma selected_getTuple k r :
  selected (getTuple_sql k) (getTuple_args k) r ↔ matching k r.1.
Proof.
  unfold selected, where_holds, matching, getTuple_sql, getTuple_args.
  destruct r as [[[t' ns'] i'] c].
  destruct (truthy (checkpoint_id k)) eqn:Ht; simpl.
  - destruct (thread_id k) as [t|], (checkpoint_id k) as [i|]; simpl;
      rewrite ?andb_true_iff, ?bool_decide_eq_true;
      intuition (simplify_eq; auto).
  - destruct (thread_id k) as [t|]; simpl;
      rewrite ?andb_true_iff, ?bool_decide_eq_true;
      intuition (simplify_eq; auto).
Qed.

Lemma getTuple_args_aligned k :
  (length (getTuple_args k) ≤ length (sel_where (getTuple_sql k)))%nat.
Proof.
  unfold getTuple_args, getTuple_sql.
  by destruct (truthy (checkpoint_id k)).
Qed.

Lemma getTuple_rows db cfg :
  let k := default no_configurable (configurable cfg) in
  execute db (getTuple_sql k) (getTuple_args k) =
    Ok (checkpoint_row db <$>
        (if truthy (checkpoint_id k)
         then filter (λ r, matching k r.1) (table_rows (checkpoints db))
         else take 1 (order_by_checkpoint_id_desc
                (filter (λ r, matching k r.1) (table_rows (checkpoints db)))))).
Proof.
  intros k. rewrite execute_aligned by apply getTuple_args_aligned.
  rewrite (list_filter_iff _ (λ r, matching k r.1)) by apply selected_getTuple.
  unfold getTuple_sql. by destruct (truthy (checkpoint_id k)).
Qed.

Lemma getTuple_execute db cfg :
  let k := default no_configurable (configurable cfg) in
  getTuple db cfg =
    match execute db (getTuple_sql k) (getTuple_args k) with
    | Err e => Err e
    | Ok [] => Ok None
    | Ok (row :: _) =>
        let finalConfig :=
          if truthy (checkpoint_id k) then cfg
          else {| configurable := Some
                    {| thread_id := Some (row_thread_id row);
                       checkpoint_ns := Some (default "" (checkpoint_ns k));
                       checkpoint_id := Some (row_checkpoint_id row) |} |} in
        match configurable finalConfig ≫= thread_id,
              configurable finalConfig ≫= checkpoint_id with
        | Some _, Some _ =>
            Ok (Some
              {| checkpoint := decode_checkpoint db row;
                 config := finalConfig;
                 metadata := decode_metadata row;
                 parentConfig :=
                   if truthy (row_parent_checkpoint_id row)
                   then Some {| configurable := Some
                          {| thread_id := Some (row_thread_id row);
                             checkpoint_ns := Some (default "" (checkpoint_ns k));
                             checkpoint_id := row_parent_checkpoint_id row |} |}
                   else None;
                 pendingWrites := decode_pending_writes row |})
        | _, _ => Err "Missing thread_id or checkpoint_id"
        end
    end.
Proof.
  intros k. unfold getTuple, getTuple_sql, getTuple_args. fold k.
  by destruct (truthy (checkpoint_id k)).
Qed.

(** C7. Without a checkpoint id [getTuple] returns the checkpoint whose id
    is the greatest of the partition, and whenever no row matches the
    partition key and the optional checkpoint id it returns the absent
    result [Ok None], not an error. *)
Theorem getTuple_latest_or_absent (db : Db) (cfg : RunnableConfig) :
  let k := default no_configurable (configurable cfg) in
  let ns := default "" (checkpoint_ns k) in
  (is_Some (thread_id k) →
   (∀ key c, checkpoints db !! key = Some c → ¬ matching k key) →
   getTuple db cfg = Ok None) ∧
  (∀ t i c,
     thread_id k = Some t → truthy (checkpoint_id k) = false →
     checkpoints db !! (t, ns, i) = Some c →
     ∃ tup j cj,
       getTuple db cfg = Ok (Some tup) ∧
       checkpoints db !! (t, ns, j) = Some cj ∧
       (∀ i' c', checkpoints db !! (t, ns, i') = Some c' → cle i' j) ∧
       config tup = {| configurable := Some
                         {| thread_id := Some t; checkpoint_ns := Some ns;
                            checkpoint_id := Some j |} |} ∧
       checkpoint tup = decode_checkpoint db (checkpoint_row db ((t, ns, j), cj)) ∧
       metadata tup = decode_metadata (checkpoint_row db ((t, ns, j), cj))).
Proof.
  intros k ns. split.
  - intros _ Hno. rewrite getTuple_execute, getTuple_rows. fold k.
    rewrite filter_none.
    + by destruct (truthy (checkpoint_id k)).
    + intros [key c] Hin%elem_of_table_rows. by apply (Hno key c).
  - intros t i c Ht Hid Hc.
    rewrite getTuple_execute, getTuple_rows. fold k. rewrite Hid.
    set (rows := filter (λ r, matching k r.1) (table_rows (checkpoints db))).
    assert (Hrows : ∀ key c', (key, c') ∈ rows ↔
              ∃ i', key = (t, ns, i') ∧ checkpoints db !! key = Some c').
    { intros [[t' ns'] i'] c'. unfold rows.
      rewrite list_elem_of_filter, elem_of_table_rows.
      unfold matching. rewrite Ht, Hid. simpl. split.
      - intros [([= <-] & -> & _) Hl]. by exists i'.
      - intros (i'' & [= -> -> ->] & Hl). done. }
    pose proof (order_by_checkpoint_id_desc_sorted rows) as Hs.
    pose proof (order_by_checkpoint_id_desc_perm rows) as Hp.
    destruct (order_by_checkpoint_id_desc rows) as [|[key cj] L] eqn:EL.
    { assert (Hin : ((t, ns, i), c) ∈ rows) by (apply Hrows; eauto).
      rewrite <-Hp in Hin. by apply elem_of_nil in Hin. }
    assert (Hhd : (key, cj) ∈ rows) by (rewrite <-Hp; left).
    apply Hrows in Hhd as (j & -> & Hj).
    simpl. eexists _, j, cj. split; [done|]. simpl.
    split_and!; try done.
    intros i' c' Hi'.
    assert (Hin : ((t, ns, i'), c') ∈ rows) by (apply Hrows; eauto).
    rewrite <-Hp in Hin. apply StronglySorted_inv in Hs as [_ Hall].
    apply elem_of_cons in Hin as [[= ->]|Hin]; [apply cle_refl|].
    rewrite Forall_forall in Hall. apply (Hall _ Hin).
Qed.

(** ** [put] (C1, C8, C10) *)

(** The columns [put] stores for a checkpoint and its metadata. *)
Definition put_row (k : Configurable) (c : Checkpoint) (m : CheckpointMetadata)
    : CheckpointCols :=
  {| c_parent_checkpoint_id := checkpoint_id k;
     c_type := Some (dumpsTyped (copyCheckpoint c)).1;
     c_checkpoint := SqlBlob (dumpsTyped (copyCheckpoint c)).2;
     c_metadata := SqlBlob (dumpsTyped m).2 |}.

Definition key_config (t ns i : string) : RunnableConfig :=
  {| configurable := Some
       {| thread_id := Some t; checkpoint_ns := Some ns;
          checkpoint_id := Some i |} |}.

Lemma put_Ok db cfg c m db' out :
  put db cfg c m = Ok (db', out) →
  ∃ k t,
    configurable cfg = Some k ∧ thread_id k = Some t ∧ t ≠ "" ∧
    (dumpsTyped (copyCheckpoint c)).1 = (dumpsTyped m).1 ∧
    db' = {| checkpoints :=
               <[ (t, default "" (checkpoint_ns k), cp_id c) := put_row k c m ]>
               (checkpoints db);
             writes := writes db |} ∧
    out = key_config t (default "" (checkpoint_ns k)) (cp_id c).
Proof.
  unfold put, put_row. destruct (configurable cfg) as [k|]; [|done].
  destruct (thread_id k) as [t|] eqn:Ht; [|done].
  case_decide; [done|].
  destruct (dumpsTyped (copyCheckpoint c)) as [type1 sc].
  destruct (dumpsTyped m) as [type2 sm].
  case_decide; [|done]. intros [= <- <-]. by exists k, t.
Qed.

Lemma select_key (db : Db) (key : CheckpointKey) :
  filter (λ r, r.1 = key) (table_rows (checkpoints db))
  = match checkpoints db !! key with
    | Some c => [(key, c)]
    | None => []
    end.
Proof.
  apply table_rows_filter_eq.
  - destruct (checkpoints db !! _); repeat constructor.
  - intros k c. simpl. destruct (checkpoints db !! key) as [c'|] eqn:E.
    + rewrite list_elem_of_singleton. split.
      * by intros [= -> ->].
      * intros [Hk Hc]. simpl in Hk. subst k. rewrite E in Hc.
        by injection Hc as ->.
    + rewrite elem_of_nil. split; [done|]. intros [Hk Hc]. simpl in Hk.
      subst k. by rewrite E in Hc.
Qed.

(** C8. Two calls of [put] for the same key (the same thread id, namespace
    and checkpoint id, which is the key both return) leave exactly one row
    of that key, and the row is the one the second call wrote. *)
Theorem put_twice_one_row (db db1 db2 : Db) (cfg1 cfg2 out : RunnableConfig)
    (c1 c2 : Checkpoint) (m1 m2 : CheckpointMetadata) :
  put db cfg1 c1 m1 = Ok (db1, out) →
  put db1 cfg2 c2 m2 = Ok (db2, out) →
  ∃ k2 t ns,
    configurable cfg2 = Some k2 ∧
    out = key_config t ns (cp_id c2) ∧
    filter (λ r, r.1 = (t, ns, cp_id c2)) (table_rows (checkpoints db2))
      = [((t, ns, cp_id c2), put_row k2 c2 m2)].
Proof.
  intros _ (k2 & t & Hk & Ht & _ & _ & -> & ->)%put_Ok.
  exists k2, t, (default "" (checkpoint_ns k2)). split_and!; [done..|].
  rewrite select_key. simpl. by rewrite lookup_insert_eq.
Qed.

(** C10. The row [put] writes takes its parent_checkpoint_id from the
    checkpoint_id of the incoming config, NULL when the config has none;
    the id of the checkpoint itself only names the row. *)
Theorem put_parent_from_config (db db' : Db) (cfg out : RunnableConfig)
    (c : Checkpoint) (m : CheckpointMetadata) :
  put db cfg c m = Ok (db', out) →
  ∃ k t,
    configurable cfg = Some k ∧ thread_id k = Some t ∧
    c_parent_checkpoint_id <$>
      checkpoints db' !! (t, default "" (checkpoint_ns k), cp_id c)
    = Some (checkpoint_id k).
Proof.
  intros (k & t & Hk & Ht & _ & _ & -> & _)%put_Ok.
  exists k, t. split_and!; [done..|].
  simpl. by rewrite lookup_insert_eq.
Qed.

(** What is stored for [stored] decodes to [x]. *)
Definition roundtrips {A} `{SerializerProtocol A} (stored x : A) : Prop :=
  loadsTyped (Some (dumpsTyped stored).1)
             (Some (blobToString (SqlBlob (dumpsTyped stored).2))) = x.

Lemma matching_key_config t ns i key :
  i ≠ "" →
  matching {| thread_id := Some t; checkpoint_ns := Some ns;
              checkpoint_id := Some i |} key ↔ key = (t, ns, i).
Proof.
  intros Hi. unfold matching. destruct key as [[t' ns'] i']. simpl.
  rewrite decide_False by done. split.
  - intros ([= <-] & -> & Hid). specialize (Hid eq_refl). by injection Hid as <-.
  - by intros [= -> -> ->].
Qed.

Lemma getTuple_key_config db t ns i c :
  i ≠ "" →
  checkpoints db !! (t, ns, i) = Some c →
  getTuple db (key_config t ns i) =
    Ok (Some
      {| checkpoint := decode_checkpoint db (checkpoint_row db ((t, ns, i), c));
         config := key_config t ns i;
         metadata := decode_metadata (checkpoint_row db ((t, ns, i), c));
         parentConfig :=
           if truthy (c_parent_checkpoint_id c)
           then Some {| configurable := Some
                  {| thread_id := Some t; checkpoint_ns := Some ns;
                     checkpoint_id := c_parent_checkpoint_id c |} |}
           else None;
         pendingWrites :=
           decode_pending_writes (checkpoint_row db ((t, ns, i), c)) |}).
Proof.
  intros Hi Hc. rewrite getTuple_execute, getTuple_rows. simpl.
  rewrite decide_False by done.
  rewrite (list_filter_iff _ (λ r, r.1 = (t, ns, i)))
    by (intros r; by apply matching_key_config).
  by rewrite select_key, Hc.
Qed.

(** C1, amended. A checkpoint and its metadata written by [put] are read
    back by [getTuple] on the config [put] returned, when the checkpoint
    id is not the empty string, the version is current and the serializer
    decodes what it encoded. *)
Theorem put_getTuple_roundtrip (db db' : Db) (cfg out : RunnableConfig)
    (C : Checkpoint) (M : CheckpointMetadata) :
  put db cfg C M = Ok (db', out) →
  cp_id C ≠ "" →
  4 ≤ cp_v C →
  roundtrips (copyCheckpoint C) C →
  roundtrips M M →
  ∃ tup, getTuple db' out = Ok (Some tup) ∧
         checkpoint tup = C ∧ metadata tup = M.
Proof.
  intros (k & t & Hk & Ht & _ & Hty & -> & ->)%put_Ok Hid Hv HC HM.
  eexists. split.
  - apply getTuple_key_config; [done|]. simpl. apply lookup_insert_eq.
  - unfold roundtrips in *. simpl in *. split.
    + unfold decode_checkpoint. simpl. rewrite HC.
      destruct (checkpoint_id k); [|done]. by rewrite decide_False by lia.
    + unfold decode_metadata. simpl. by rewrite Hty.
Qed.

(** ** The legacy migration (C5) *)

Lemma obj_get_set_eq {A} (k : string) (x : A) (o : obj A) :
  obj_get k (obj_set k x o) = Some x.
Proof.
  induction o as [|[k' y] o IH]; simpl.
  - by rewrite decide_True.
  - case_decide; simpl; [by rewrite decide_True|by rewrite decide_False].
Qed.

Lemma obj_get_set_ne {A} (k k' : string) (x : A) (o : obj A) :
  k' ≠ k → obj_get k' (obj_set k x o) = obj_get k' o.
Proof.
  intros Hne. induction o as [|[k'' y] o IH]; simpl.
  - by rewrite decide_False.
  - case_decide; simpl.
    + subst k''. by rewrite !decide_False.
    + by rewrite IH.
Qed.

(** The sends the migration decodes: the rows of [select_migration]. *)
Definition migration_sends (db : Db) (threadId parentCheckpointId : string)
    : list Value :=
  (λ s, loadsTyped (ps_type s) (ps_value s)) <$>
    (pending_send_column <$>
      filter (λ r, wk_thread_id r.1 = threadId ∧
                   wk_checkpoint_id r.1 = parentCheckpointId ∧
                   w_channel r.2 = TASKS)
        (table_rows (writes db))).

(** C5. The migration gives the TASKS channel the decoded pending sends,
    and as its version the maximum of the versions the checkpoint had
    when it has any, otherwise the version [getNextVersion] makes from no
    predecessor; the other versions are kept. *)
Theorem migratePendingSends_version (db : Db) (c : Checkpoint)
    (threadId parentCheckpointId : string) :
  let c' := migratePendingSends db c threadId parentCheckpointId in
  obj_get TASKS (channel_values c')
    = Some (VArr (migration_sends db threadId parentCheckpointId)) ∧
  obj_get TASKS (channel_versions c')
    = Some (match channel_versions c with
            | [] => getNextVersion None
            | _ :: _ => maxChannelVersion (Object_values (channel_versions c))
            end) ∧
  (∀ k, k ≠ TASKS →
        obj_get k (channel_versions c') = obj_get k (channel_versions c)).
Proof.
  unfold migratePendingSends, select_migration, migration_sends. simpl.
  split_and!.
  - apply obj_get_set_eq.
  - rewrite obj_get_set_eq. by destruct (channel_versions c).
  - intros k Hk. by apply obj_get_set_ne.
Qed.

(** ** [list] (C6) *)

(** The WHERE clause and the arguments [list] assembles. *)
Definition list_where (th ns bf : option string) (fl : list (string * Value))
    : list WherePred :=
  ((if truthy th then [WThreadId] else []) ++
   (if ns is Some _ then [WCheckpointNs] else []) ++
   (if bf is Some _ then [WBefore] else []) ++
   ((λ e : string * Value, WMetadata e.1) <$> fl))%list.

Definition list_args (th ns bf : option string) (fl : list (string * Value))
    : list (option string) :=
  ((Some <$> omap id [th; ns; bf]) ++
   ((λ e : string * Value, Some (JSON_stringify e.2)) <$> fl))%list.

(** What the clause means when every placeholder gets its own argument. *)
Definition opt_holds {A} (P : A → Prop) (o : option A) : Prop :=
  match o with Some a => P a | None => True end.

Global Instance opt_holds_dec {A} (P : A → Prop) `{∀ a, Decision (P a)} o :
  Decision (opt_holds P o).
Proof. destruct o; simpl; apply _. Defined.

Definition list_matching (th ns bf : option string) (fl : list (string * Value))
    (r : CheckpointKey * CheckpointCols) : Prop :=
  opt_holds (λ t, r.1.1.1 = t) th ∧
  opt_holds (λ n, r.1.1.2 = n) ns ∧
  opt_holds (λ b, clt r.1.2 b) bf ∧
  Forall (λ e, metadata_field_eq (c_metadata r.2) e.1 (JSON_stringify e.2) = true) fl.

Global Instance list_matching_dec th ns bf fl r :
  Decision (list_matching th ns bf fl r).
Proof. unfold list_matching. apply _. Defined.

Lemma selected_metadata r (fl : list (string * Value)) :
  forallb (where_holds r)
    (bind_params ((λ e : string * Value, WMetadata e.1) <$> fl)
                 ((λ e : string * Value, Some (JSON_stringify e.2)) <$> fl)) = true
  ↔ Forall (λ e, metadata_field_eq (c_metadata r.2) e.1 (JSON_stringify e.2) = true) fl.
Proof.
  induction fl as [|e fl IH]; simpl.
  - split; [constructor|done].
  - rewrite andb_true_iff, Forall_cons, IH. done.
Qed.

Lemma list_args_aligned th ns bf fl :
  th ≠ Some "" →
  length (list_args th ns bf fl) = length (list_where th ns bf fl).
Proof.
  intros Hth. unfold list_args, list_where.
  destruct th as [t|], ns, bf; simpl; rewrite ?decide_False by congruence;
    simpl; by rewrite ?length_fmap.
Qed.

Lemma selected_list th ns bf fl order limit r :
  th ≠ Some "" →
  selected {| sel_where := list_where th ns bf fl;
              sel_order_desc := order; sel_limit := limit |}
           (list_args th ns bf fl) r
  ↔ list_matching th ns bf fl r.
Proof.
  intros Hth. unfold selected, list_matching, list_args, list_where.
  destruct r as [[[t' ns'] i'] c].
  pose proof (selected_metadata (t', ns', i', c) fl) as Hfl.
  destruct th as [t|], ns as [n|], bf as [b|]; simpl;
    rewrite ?decide_False by congruence; simpl;
    rewrite ?andb_true_iff, Hfl; unfold where_holds, clt; simpl;
    rewrite ?bool_decide_eq_true; intuition (simplify_eq; auto).
Qed.

Definition list_limit (options : option CheckpointListOptions) : option Z :=
  match options ≫= opt_limit with
  | Some n => if decide (n = 0) then None else Some n
  | None => None
  end.

Definition list_before (options : option CheckpointListOptions) : option string :=
  ((options ≫= opt_before) ≫= configurable) ≫= checkpoint_id.

(** With a thread id that is absent or not empty the placeholders and the
    arguments of [list] agree, and the statement selects by [list_matching]. *)
Lemma list_rows db cfg options :
  let th := configurable cfg ≫= thread_id in
  let ns := configurable cfg ≫= checkpoint_ns in
  let fl := sanitizedFilter (options ≫= opt_filter) in
  th ≠ Some "" →
  list_ db cfg options =
    Ok (list_tuple db <$> (checkpoint_row db <$>
          sql_limit (list_limit options)
            (order_by_checkpoint_id_desc
               (filter (list_matching th ns (list_before options) fl)
                  (table_rows (checkpoints db)))))).
Proof.
  intros th ns fl Hth. unfold list_.
  change (execute db ?sql ?args) with
    (execute db {| sel_where := list_where th ns (list_before options) fl;
                   sel_order_desc := true;
                   sel_limit := list_limit options |}
                (list_args th ns (list_before options) fl)).
  rewrite execute_aligned by (simpl; by rewrite list_args_aligned).
  simpl.
  rewrite (list_filter_iff (selected _ _)
             (list_matching th ns (list_before options) fl)); [done|].
  intros r. by apply selected_list.
Qed.

Definition tuple_id (tup : CheckpointTuple) : option string :=
  configurable (config tup) ≫= checkpoint_id.

Lemma tuple_id_list_tuple db (rows : list (CheckpointKey * CheckpointCols)) :
  tuple_id <$> (list_tuple db <$> (checkpoint_row db <$> rows))
  = Some <$> ((λ r, r.1.2) <$> rows).
Proof. rewrite <-!list_fmap_compose. by apply list_fmap_ext. Qed.

Lemma NoDup_fst_filter {A B} (P : A * B → Prop) `{∀ x, Decision (P x)}
    (l : list (A * B)) :
  NoDup l.*1 → NoDup (filter P l).*1.
Proof.
  induction l as [|x l IH]; simpl; [done|].
  rewrite NoDup_cons. intros [Hx Hl]. rewrite filter_cons.
  case_decide; [|by apply IH]. simpl. apply NoDup_cons. split; [|by apply IH].
  intros Hin. apply Hx. apply list_elem_of_fmap in Hin as (y & -> & Hy).
  apply list_elem_of_filter in Hy as [_ Hy]. by apply list_elem_of_fmap_2.
Qed.

Lemma StronglySorted_take {A} (R : relation A) (n : nat) (l : list A) :
  StronglySorted R l → StronglySorted R (take n l).
Proof.
  intros Hs. rewrite <-(take_drop n l) in Hs.
  by apply StronglySorted_app_1_l in Hs.
Qed.

Lemma sql_limit_take {A} (lim : option Z) (l : list A) :
  ∃ n, sql_limit lim l = take n l.
Proof.
  destruct lim as [z|]; simpl.
  - case_decide; [|by eexists]. exists (length l). by rewrite firstn_all.
  - exists (length l). by rewrite firstn_all.
Qed.

Lemma partition_desc_strict (L : list (CheckpointKey * CheckpointCols))
    (p : string * string) :
  NoDup L.*1 → (∀ r, r ∈ L → r.1.1 = p) →
  StronglySorted checkpoint_id_ge L →
  StronglySorted (flip clt) ((λ r, r.1.2) <$> L).
Proof.
  induction L as [|r L IH]; simpl; intros Hnd Hp Hs; [constructor|].
  apply StronglySorted_inv in Hs as [Hs Hall].
  apply NoDup_cons in Hnd as [Hr Hnd].
  constructor.
  - apply IH; [done| |done]. intros r' Hr'. apply Hp. by right.
  - apply Forall_forall. intros i (r' & -> & Hr')%list_elem_of_fmap.
    rewrite Forall_forall in Hall. specialize (Hall r' Hr').
    destruct (cle_clt_or_eq _ _ Hall) as [Hlt|Heq]; [done|].
    destruct Hr. replace r.1 with r'.1; [by apply list_elem_of_fmap_2|].
    assert (r'.1.1 = r.1.1) as Hpp.
    { rewrite (Hp r'), (Hp r); [done|by left|by right]. }
    destruct r as [[? ?] ?], r' as [[? ?] ?]. simpl in *. congruence.
Qed.

(** The rows of one partition in the order of the statement: the ids go
    strictly down, since the partition has one row per id. *)
Lemma partition_rows_desc (db : Db) (t n : string) (bf : option string)
    (fl : list (string * Value)) :
  let L := order_by_checkpoint_id_desc
             (filter (list_matching (Some t) (Some n) bf fl)
                (table_rows (checkpoints db))) in
  StronglySorted (flip clt) ((λ r, r.1.2) <$> L) ∧
  (∀ i, i ∈ (λ r, r.1.2) <$> L ↔
        ∃ c, checkpoints db !! (t, n, i) = Some c ∧ opt_holds (clt i) bf ∧
             Forall (λ e, metadata_field_eq (c_metadata c) e.1
                            (JSON_stringify e.2) = true) fl).
Proof.
  intros L.
  assert (Hin : ∀ r, r ∈ L ↔
            r.1.1 = (t, n) ∧ checkpoints db !! r.1 = Some r.2 ∧
            opt_holds (clt r.1.2) bf ∧
            Forall (λ e, metadata_field_eq (c_metadata r.2) e.1
                           (JSON_stringify e.2) = true) fl).
  { intros [[[t' n'] i'] c]. unfold L.
    rewrite order_by_checkpoint_id_desc_perm.
    rewrite list_elem_of_filter, elem_of_table_rows.
    unfold list_matching. simpl. split.
    - intros [(-> & -> & ? & ?) ?]. done.
    - intros ([= -> ->] & ? & ? & ?). done. }
  split.
  - apply (partition_desc_strict L (t, n)).
    + unfold L. rewrite order_by_checkpoint_id_desc_perm.
      apply NoDup_fst_filter, NoDup_fst_table_rows.
    + intros r Hr. by apply Hin in Hr as [? _].
    + apply order_by_checkpoint_id_desc_sorted.
  - intros i. rewrite list_elem_of_fmap. split.
    + intros ([[[t' n'] i'] c] & -> & ([= -> ->] & ? & ? & ?)%Hin).
      by exists c.
    + intros (c & ? & ? & ?). exists ((t, n, i), c). split; [done|].
      by apply Hin.
Qed.

Lemma desc_sorted_NoDup (l : list string) :
  StronglySorted (flip clt) l → NoDup l.
Proof.
  induction 1 as [|i l Hs IH Hall]; constructor; [|done].
  intros Hin. rewrite Forall_forall in Hall.
  by apply (clt_irrefl i), (Hall i).
Qed.

Lemma desc_sorted_unique (l1 l2 : list string) :
  StronglySorted (flip clt) l1 → StronglySorted (flip clt) l2 →
  (∀ i, i ∈ l1 ↔ i ∈ l2) → l1 = l2.
Proof.
  intros Hs1 Hs2 Hiff.
  apply (StronglySorted_unique_strong (flip clt)); [|done|done|].
  - intros i1 i2 _ _ H12 H21. unfold flip in *.
    destruct (clt_irrefl i1). by trans i2.
  - apply NoDup_Permutation; [by apply desc_sorted_NoDup..|done].
Qed.

Definition partition_config (t ns : string) : RunnableConfig :=
  {| configurable := Some
       {| thread_id := Some t; checkpoint_ns := Some ns;
          checkpoint_id := None |} |}.

Definition before_only (b : RunnableConfig) : option CheckpointListOptions :=
  Some {| opt_limit := None; opt_before := Some b; opt_filter := None |}.

(** C6. [list] on a partition yields the checkpoints with strictly
    decreasing checkpoint ids, each an id of the partition and, when
    [before] carries an id, strictly below it.  With the ids
    2024-01-01T00:00:00, 2024-01-02T00:00:00 and 2024-01-03T00:00:00 in
    the partition and [before] the third, it yields the second and then
    the first. *)
Theorem list_descending_before :
  (∀ (db : Db) (cfg : RunnableConfig) (options : option CheckpointListOptions)
     (tuples : list CheckpointTuple) (t ns : string),
     configurable cfg ≫= thread_id = Some t → t ≠ "" →
     configurable cfg ≫= checkpoint_ns = Some ns →
     list_ db cfg options = Ok tuples →
     ∃ ids, tuple_id <$> tuples = Some <$> ids ∧
            StronglySorted (flip clt) ids ∧
            Forall (λ i, is_Some (checkpoints db !! (t, ns, i)) ∧
                         opt_holds (clt i) (list_before options)) ids) ∧
  (∀ (db : Db) (t ns : string),
     t ≠ "" →
     (∀ i, is_Some (checkpoints db !! (t, ns, i)) ↔
           i ∈ ["2024-01-01T00:00:00"; "2024-01-02T00:00:00";
                "2024-01-03T00:00:00"]) →
     ∃ tuples,
       list_ db (partition_config t ns)
         (before_only (key_config t ns "2024-01-03T00:00:00")) = Ok tuples ∧
       tuple_id <$> tuples
         = [Some "2024-01-02T00:00:00"; Some "2024-01-01T00:00:00"]).
Proof.
  split.
  - intros db cfg options tuples t ns Ht Hne Hns Hlist.
    rewrite list_rows in Hlist by (rewrite Ht; congruence).
    injection Hlist as <-. rewrite Ht, Hns.
    destruct (partition_rows_desc db t ns (list_before options)
                (sanitizedFilter (options ≫= opt_filter))) as [Hs Hin].
    set (L := order_by_checkpoint_id_desc _) in *.
    destruct (sql_limit_take (list_limit options) L) as [n ->].
    exists ((λ r, r.1.2) <$> take n L). split_and!.
    + apply tuple_id_list_tuple.
    + rewrite fmap_take. by apply StronglySorted_take.
    + apply Forall_forall. intros i Hi.
      assert (i ∈ (λ r, r.1.2) <$> L) as (c & Hc & Hb & _)%Hin.
      { rewrite <-(take_drop n L), fmap_app. apply elem_of_app. by left. }
      split; [by exists c|done].
  - intros db t ns Hne Hids. eexists. split.
    + apply list_rows. simpl. congruence.
    + simpl. rewrite tuple_id_list_tuple.
      destruct (partition_rows_desc db t ns (Some "2024-01-03T00:00:00") [])
        as [Hs Hin].
      change (Some "2024-01-02T00:00:00" :: ?l) with
        (Some <$> ["2024-01-02T00:00:00"; "2024-01-01T00:00:00"]).
      f_equal. apply desc_sorted_unique; [done| |].
      * repeat constructor.
      * intros i. rewrite Hin. split.
        -- intros (c & Hc & Hlt & _).
           assert (is_Some (checkpoints db !! (t, ns, i))) as Hi by eauto.
           apply Hids in Hi. simpl in Hlt.
           rewrite !elem_of_cons in Hi. rewrite !elem_of_cons.
           destruct Hi as [->|[->|[->|Hi]]]; auto;
             try by apply elem_of_nil in Hi.
           by destruct (clt_irrefl "2024-01-03T00:00:00").
        -- intros Hi.
           assert (is_Some (checkpoints db !! (t, ns, i))) as [c Hc].
           { apply Hids. rewrite !elem_of_cons in Hi. rewrite !elem_of_cons.
             tauto. }
           exists c. split_and!; [done| |constructor].
           rewrite !elem_of_cons in Hi.
           destruct Hi as [->|[->|Hi]]; [done..|].
           by apply elem_of_nil in Hi.
Qed.

(** ** Pending writes (C2) *)

(** One entry of [pendingWrites], from the row of [writes] it decodes. *)
Definition decode_write (r : WriteKey * WriteCols) : string * string * Value :=
  (wk_task_id r.1, w_channel r.2,
   loadsTyped (Some (default "json" (w_type r.2)))
              (Some (default "" (cast_as_text (w_value r.2))))).

(** Task id first, then sequence index. *)
Definition task_idx_lt : relation (WriteKey * WriteCols) :=
  λ r1 r2, clt (wk_task_id r1.1, wk_idx r1.1) (wk_task_id r2.1, wk_idx r2.1).

Lemma decode_pending_writes_row db key c :
  decode_pending_writes (checkpoint_row db (key, c))
  = decode_write <$>
      filter (writes_of_checkpoint key.1.1 key.1.2 key.2) (table_rows (writes db)).
Proof.
  unfold decode_pending_writes, checkpoint_row, select_pending_writes. simpl.
  rewrite <-list_fmap_compose. by apply list_fmap_ext.
Qed.

Lemma StronglySorted_impl_elem {A} (R R' : relation A) (l : list A) :
  (∀ x y, x ∈ l → y ∈ l → R x y → R' x y) →
  StronglySorted R l → StronglySorted R' l.
Proof.
  intros Himp Hs. induction Hs as [|x l Hs IH Hall]; constructor.
  - apply IH. intros y z Hy Hz. apply Himp; by right.
  - apply Forall_forall. intros y Hy. rewrite Forall_forall in Hall.
    apply Himp; [by left|by right|by apply Hall].
Qed.

Lemma cmp_prefix_same `{CompareLaws A, Compare B, Compare C}
    (a : A) (b1 b2 : B) (c1 c2 : C) :
  cmp (a, b1, c1) (a, b2, c2) = cmp (b1, c1) (b2, c2).
Proof.
  change (cmp (a, b1, c1) (a, b2, c2)) with
    (match cmp (a, b1) (a, b2) with Eq => cmp c1 c2 | o => o end).
  change (cmp (a, b1) (a, b2)) with
    (match cmp a a with Eq => cmp b1 b2 | o => o end).
  by rewrite cmp_refl.
Qed.

Lemma key_lt_same_checkpoint t ns i (r1 r2 : WriteKey * WriteCols) :
  writes_of_checkpoint t ns i r1 → writes_of_checkpoint t ns i r2 →
  key_lt r1 r2 ↔ task_idx_lt r1 r2.
Proof.
  destruct r1 as [[[[[t1 n1] i1] k1] j1] w1], r2 as [[[[[t2 n2] i2] k2] j2] w2].
  unfold writes_of_checkpoint, key_lt, task_idx_lt, clt, cltb.
  unfold wk_thread_id, wk_checkpoint_ns, wk_checkpoint_id, wk_task_id, wk_idx.
  simpl. intros (-> & -> & ->) (-> & -> & ->).
  by rewrite (cmp_prefix_same (t, ns, i) k1 k2 j1 j2).
Qed.

Lemma writes_of_checkpoint_sorted (db : Db) t ns i :
  StronglySorted task_idx_lt
    (filter (writes_of_checkpoint t ns i) (table_rows (writes db))).
Proof.
  apply (StronglySorted_impl_elem key_lt).
  - intros r1 r2 [H1 _]%list_elem_of_filter [H2 _]%list_elem_of_filter.
    by apply (key_lt_same_checkpoint t ns i).
  - apply StronglySorted_filter, table_rows_sorted.
Qed.

(** The row behind a returned tuple. *)
Lemma getTuple_Some db cfg tup :
  getTuple db cfg = Ok (Some tup) →
  let k := default no_configurable (configurable cfg) in
  ∃ key c,
    checkpoints db !! key = Some c ∧ matching k key ∧
    tuple_id tup = Some key.2 ∧
    configurable (config tup) ≫= thread_id = Some key.1.1 ∧
    default "" (configurable (config tup) ≫= checkpoint_ns) = key.1.2 ∧
    checkpoint tup = decode_checkpoint db (checkpoint_row db (key, c)) ∧
    metadata tup = decode_metadata (checkpoint_row db (key, c)) ∧
    pendingWrites tup = decode_pending_writes (checkpoint_row db (key, c)).
Proof.
  intros Hget k. rewrite getTuple_execute, getTuple_rows in Hget. fold k in Hget.
  set (F := filter (λ r, matching k r.1) (table_rows (checkpoints db))) in *.
  set (rows := if truthy (checkpoint_id k) then F
               else take 1 (order_by_checkpoint_id_desc F)) in *.
  assert (Hsub : ∀ r, r ∈ rows → r ∈ F).
  { intros r. unfold rows. destruct (truthy (checkpoint_id k)); [done|].
    intros Hr. rewrite <-(order_by_checkpoint_id_desc_perm F).
    rewrite <-(take_drop 1 (order_by_checkpoint_id_desc F)).
    apply elem_of_app. by left. }
  destruct rows as [|[key c] rows']; [done|].
  assert (Hin : (key, c) ∈ F) by (apply Hsub; left).
  apply list_elem_of_filter in Hin as [Hm Hl%elem_of_table_rows].
  exists key, c. simpl in Hget, Hm.
  pose proof Hm as (Ht & Hns & Hid).
  unfold tuple_id.
  destruct (truthy (checkpoint_id k)) eqn:Htr; simpl in Hget.
  - specialize (Hid eq_refl).
    assert (configurable cfg = Some k) as Hk.
    { unfold k in *. destruct (configurable cfg); [done|]. by simpl in *. }
    rewrite Hk in Hget. simpl in Hget. rewrite Ht, Hid in Hget.
    injection Hget as <-. simpl. rewrite Hk. simpl.
    by rewrite Ht, Hid, Hns.
  - injection Hget as <-. simpl. by rewrite Hns.
Qed.

Lemma batch_insert_lookup_notin (stmts : list (WriteKey * WriteCols))
    (t : gmap WriteKey WriteCols) (k : WriteKey) :
  k ∉ stmts.*1 → batch_insert stmts t !! k = t !! k.
Proof.
  unfold batch_insert. revert t.
  induction stmts as [|s stmts IH]; intros t Hk; simpl; [done|].
  rewrite fmap_cons, not_elem_of_cons in Hk. destruct Hk as [Hne Hk].
  rewrite IH by done. by rewrite lookup_insert_ne.
Qed.

Lemma batch_insert_lookup_in (stmts : list (WriteKey * WriteCols))
    (t : gmap WriteKey WriteCols) (k : WriteKey) (w : WriteCols) :
  NoDup stmts.*1 → (k, w) ∈ stmts → batch_insert stmts t !! k = Some w.
Proof.
  revert t. induction stmts as [|s stmts IH]; intros t Hnd Hin.
  { by apply elem_of_nil in Hin. }
  rewrite fmap_cons, NoDup_cons in Hnd. destruct Hnd as [Hs Hnd].
  apply elem_of_cons in Hin as [<-|Hin].
  - change (batch_insert ((k, w) :: stmts) t)
      with (batch_insert stmts (<[k := w]> t)).
    rewrite batch_insert_lookup_notin by done. apply lookup_insert_eq.
  - change (batch_insert (s :: stmts) t)
      with (batch_insert stmts (<[s.1 := s.2]> t)).
    by apply IH.
Qed.

Lemma key_lt_NoDup_fst {K V} `{Compare K, !CompareLaws K} (l : list (K * V)) :
  StronglySorted key_lt l → NoDup l.*1.
Proof.
  induction 1 as [|r l Hs IH Hall]; simpl; constructor; [|done].
  intros (r' & Heq & Hr')%list_elem_of_fmap. rewrite Forall_forall in Hall.
  specialize (Hall r' Hr'). unfold key_lt in Hall. rewrite Heq in Hall.
  by apply clt_irrefl in Hall.
Qed.

Lemma filter_fmap_comm {A B} (f : A → B) (P : B → Prop) `{∀ y, Decision (P y)}
    (l : list A) :
  filter P (f <$> l) = f <$> filter (λ x, P (f x)) l.
Proof.
  induction l as [|x l IH]; [done|].
  rewrite fmap_cons, !filter_cons.
  case_decide; [rewrite fmap_cons|]; by rewrite IH.
Qed.

(** Rows of one checkpoint and one task are ordered by their index. *)
Definition writes_of_task (t ns i task : string) (r : WriteKey * WriteCols) : Prop :=
  writes_of_checkpoint t ns i r ∧ wk_task_id r.1 = task.

Global Instance writes_of_task_dec t ns i task r :
  Decision (writes_of_task t ns i task r).
Proof. unfold writes_of_task. apply _. Defined.

Lemma writes_of_task_key t ns i task r :
  writes_of_task t ns i task r ↔ r.1 = (t, ns, i, task, wk_idx r.1).
Proof.
  destruct r as [[[[[t1 n1] i1] k1] j1] w1].
  unfold writes_of_task, writes_of_checkpoint.
  unfold wk_thread_id, wk_checkpoint_ns, wk_checkpoint_id, wk_task_id, wk_idx.
  simpl. split.
  - by intros [(-> & -> & ->) ->].
  - by intros [= -> -> -> ->].
Qed.

Lemma key_lt_same_task t ns i task (r1 r2 : WriteKey * WriteCols) :
  writes_of_task t ns i task r1 → writes_of_task t ns i task r2 →
  key_lt r1 r2 ↔ wk_idx r1.1 < wk_idx r2.1.
Proof.
  intros H1%writes_of_task_key H2%writes_of_task_key.
  unfold key_lt, clt, cltb. rewrite H1, H2. simpl.
  change (cmp (t, ns, i, task, ?a) (t, ns, i, task, ?b)) with
    (match cmp (t, ns, i, task) (t, ns, i, task) with
     | Eq => Z.compare a b | o => o end).
  rewrite cmp_refl. unfold wk_idx. simpl.
  destruct (Z.compare_spec r1.1.2 r2.1.2); split; (done || lia).
Qed.

Lemma write_statement_key t ns i task j wr :
  (write_statement t ns i task j wr).1 = (t, ns, i, task, Z.of_nat j).
Proof. unfold write_statement. by destruct (dumpsTyped wr.2). Qed.

Lemma write_statement_task t ns i task j wr :
  writes_of_task t ns i task (write_statement t ns i task j wr).
Proof. apply writes_of_task_key. by rewrite write_statement_key. Qed.

Lemma write_statements_sorted t ns i task ws :
  StronglySorted key_lt (write_statements t ns i task ws).
Proof.
  unfold write_statements.
  assert (Hoff : ∀ off,
    StronglySorted key_lt
      (imap (λ j, write_statement t ns i task (off + j)%nat) ws)).
  { induction ws as [|wr ws IH]; intros off; simpl; [constructor|].
    constructor.
    - rewrite (imap_ext _ (λ j, write_statement t ns i task (S off + j)%nat)).
      + apply IH.
      + intros j x _. simpl. by rewrite Nat.add_succ_r.
    - apply Forall_forall. intros r (j & x & -> & _)%elem_of_lookup_imap.
      simpl. apply (key_lt_same_task t ns i task);
        [apply write_statement_task..|].
      unfold wk_idx. rewrite !write_statement_key. simpl. lia. }
  apply (Hoff 0%nat).
Qed.

Lemma elem_of_write_statements t ns i task ws r :
  r ∈ write_statements t ns i task ws ↔
  ∃ j wr, ws !! j = Some wr ∧ r = write_statement t ns i task j wr.
Proof.
  unfold write_statements. rewrite elem_of_lookup_imap. split.
  - intros (j & wr & -> & Hj). eauto.
  - intros (j & wr & Hj & ->). eauto.
Qed.

Lemma write_statements_keys t ns i task ws (k : WriteKey) :
  k ∈ (write_statements t ns i task ws).*1 →
  ∃ j, (j < length ws)%nat ∧ k = (t, ns, i, task, Z.of_nat j).
Proof.
  intros (r & -> & (j & wr & Hj & ->)%elem_of_write_statements)%list_elem_of_fmap.
  exists j. split; [by eapply lookup_lt_Some|apply write_statement_key].
Qed.

(** The rows of one task under one checkpoint after a [putWrites] for
    that task: the new rows in input order, between the rows the table
    had below index 0 and those it had from the input's length on. *)
Lemma putWrites_task_rows (m : gmap WriteKey WriteCols) t ns i task ws :
  filter (writes_of_task t ns i task)
    (table_rows (batch_insert (write_statements t ns i task ws) m))
  = (filter (λ r, writes_of_task t ns i task r ∧ wk_idx r.1 < 0) (table_rows m)
     ++ write_statements t ns i task ws
     ++ filter (λ r, writes_of_task t ns i task r ∧
                     Z.of_nat (length ws) ≤ wk_idx r.1) (table_rows m))%list.
Proof.
  set (stmts := write_statements t ns i task ws).
  set (before := filter (λ r, writes_of_task t ns i task r ∧ wk_idx r.1 < 0)
                   (table_rows m)).
  set (after := filter (λ r, writes_of_task t ns i task r ∧
                             Z.of_nat (length ws) ≤ wk_idx r.1) (table_rows m)).
  assert (Hb : ∀ r, r ∈ before ↔
            (writes_of_task t ns i task r ∧ wk_idx r.1 < 0) ∧ m !! r.1 = Some r.2).
  { intros [k w]. unfold before.
    by rewrite list_elem_of_filter, elem_of_table_rows. }
  assert (Ha : ∀ r, r ∈ after ↔
            (writes_of_task t ns i task r ∧ Z.of_nat (length ws) ≤ wk_idx r.1) ∧
            m !! r.1 = Some r.2).
  { intros [k w]. unfold after.
    by rewrite list_elem_of_filter, elem_of_table_rows. }
  assert (Hs : ∀ r, r ∈ stmts →
            writes_of_task t ns i task r ∧
            0 ≤ wk_idx r.1 < Z.of_nat (length ws)).
  { intros r (j & wr & Hj & ->)%elem_of_write_statements.
    split; [apply write_statement_task|].
    apply lookup_lt_Some in Hj. unfold wk_idx.
    rewrite write_statement_key. simpl. lia. }
  assert (Hnd : NoDup stmts.*1).
  { apply key_lt_NoDup_fst, write_statements_sorted. }
  assert (Hout : ∀ k : WriteKey,
            wk_idx k < 0 ∨ Z.of_nat (length ws) ≤ wk_idx k →
            batch_insert stmts m !! k = m !! k).
  { intros k Hk. apply batch_insert_lookup_notin.
    intros (j & Hj & ->)%write_statements_keys. unfold wk_idx in Hk.
    simpl in Hk. lia. }
  apply table_rows_filter_eq.
  - apply StronglySorted_app_2; [|apply StronglySorted_filter, table_rows_sorted|].
    { intros r1 r2 [[H1 Hlt] _]%Hb [[H2 Hge]%Hs|[[H2 Hge] _]%Ha]%elem_of_app;
        apply (key_lt_same_task t ns i task); (done || lia). }
    apply StronglySorted_app_2;
      [|apply write_statements_sorted|apply StronglySorted_filter, table_rows_sorted].
    intros r1 r2 [H1 Hlt]%Hs [[H2 Hge] _]%Ha.
    apply (key_lt_same_task t ns i task); (done || lia).
  - intros k w. rewrite !elem_of_app. split.
    + intros [[[Ht Hlt] Hl]%Hb|[Hin|[[Ht Hge] Hl]%Ha]].
      * split; [done|]. simpl in *. rewrite Hout by auto. done.
      * split; [by apply Hs|]. by apply batch_insert_lookup_in.
      * split; [done|]. simpl in *. rewrite Hout by auto. done.
    + intros [Ht Hl].
      destruct (decide (wk_idx k < 0)) as [Hlt|Hge0].
      { left. apply Hb. simpl. rewrite Hout in Hl by auto. done. }
      destruct (decide (Z.of_nat (length ws) ≤ wk_idx k)) as [Hge|Hlt].
      { right; right. apply Ha. simpl. rewrite Hout in Hl by auto. done. }
      right; left.
      destruct (lookup_lt_is_Some_2 ws (Z.to_nat (wk_idx k))) as [wr Hwr]; [lia|].
      assert (Hr : write_statement t ns i task (Z.to_nat (wk_idx k)) wr ∈ stmts).
      { apply elem_of_write_statements. eauto. }
      assert (Hk : (write_statement t ns i task (Z.to_nat (wk_idx k)) wr).1 = k).
      { rewrite write_statement_key. apply writes_of_task_key in Ht.
        simpl in Ht. rewrite Ht at 2. f_equal. lia. }
      destruct (write_statement t ns i task (Z.to_nat (wk_idx k)) wr)
        as [k' w'] eqn:E.
      simpl in Hk. subst k'.
      rewrite (batch_insert_lookup_in stmts m k w' Hnd Hr) in Hl.
      by injection Hl as <-.
Qed.

Lemma getTuple_by_id db cfg k t i c :
  configurable cfg = Some k → thread_id k = Some t →
  checkpoint_id k = Some i → i ≠ "" →
  checkpoints db !! (t, default "" (checkpoint_ns k), i) = Some c →
  ∃ tup,
    getTuple db cfg = Ok (Some tup) ∧ config tup = cfg ∧
    pendingWrites tup =
      decode_pending_writes
        (checkpoint_row db ((t, default "" (checkpoint_ns k), i), c)).
Proof.
  intros Hk Ht Hi Hne Hc. rewrite getTuple_execute, getTuple_rows.
  rewrite Hk. simpl. rewrite Hi. simpl. rewrite decide_False by done.
  rewrite (list_filter_iff _ (λ r, r.1 = (t, default "" (checkpoint_ns k), i))).
  - rewrite select_key, Hc. simpl. rewrite Hk. simpl. rewrite Ht, Hi. eauto.
  - intros [[[t' n'] i'] c']. unfold matching. simpl.
    rewrite Ht, Hi. simpl. rewrite decide_False by done. split.
    + intros ([= <-] & -> & Hid). specialize (Hid eq_refl). by injection Hid as <-.
    + by intros [= -> -> ->].
Qed.

Lemma putWrites_Ok db cfg ws task db' k :
  configurable cfg = Some k →
  putWrites db cfg ws task = Ok db' →
  ∃ t i,
    thread_id k = Some t ∧ checkpoint_id k = Some i ∧ i ≠ "" ∧
    db' = {| checkpoints := checkpoints db;
             writes :=
               batch_insert
                 (write_statements t (default "" (checkpoint_ns k)) i task ws)
                 (writes db) |}.
Proof.
  intros Hk. unfold putWrites. rewrite Hk.
  destruct (thread_id k) as [t|]; simpl; [|done].
  destruct (decide (t = "")); [done|].
  destruct (checkpoint_id k) as [i|]; simpl; [|done].
  destruct (decide (i = "")); [done|].
  intros [= <-]. by exists t, i.
Qed.

Lemma decode_write_statements t ns i task ws :
  Forall (λ w : PendingWrite, roundtrips w.2 w.2) ws →
  decode_write <$> write_statements t ns i task ws
  = (λ w : PendingWrite, (task, w.1, w.2)) <$> ws.
Proof.
  intros Hrt. unfold write_statements. rewrite fmap_imap.
  rewrite <-(imap_const (λ w : PendingWrite, (task, w.1, w.2))).
  apply imap_ext. intros j wr Hj. simpl.
  rewrite Forall_forall in Hrt.
  specialize (Hrt wr (list_elem_of_lookup_2 _ _ _ Hj)).
  unfold roundtrips, decode_write, write_statement in *.
  destruct (dumpsTyped wr.2) as [ty b]. simpl in *. by rewrite Hrt.
Qed.

(** C2. The [pendingWrites] of a tuple are the decoded rows of [writes]
    recorded under its checkpoint, all of them, ordered by task id and
    then by sequence index.  After [putWrites] of a list under a task,
    the entries of that task [getTuple] returns carry the list in input
    order; rows the table already had for the task below index 0 come
    before them, rows from the length of the list on come after. *)
Theorem getTuple_pendingWrites_order :
  (∀ (db : Db) (cfg : RunnableConfig) (tup : CheckpointTuple),
     getTuple db cfg = Ok (Some tup) →
     ∃ t ns i rows,
       configurable (config tup) ≫= thread_id = Some t ∧
       default "" (configurable (config tup) ≫= checkpoint_ns) = ns ∧
       tuple_id tup = Some i ∧
       pendingWrites tup = decode_write <$> rows ∧
       (∀ k w, (k, w) ∈ rows ↔
               writes db !! k = Some w ∧ writes_of_checkpoint t ns i (k, w)) ∧
       StronglySorted task_idx_lt rows) ∧
  (∀ (db db' : Db) (cfg : RunnableConfig) (k : Configurable) (t i : string)
     (c : CheckpointCols) (ws : list PendingWrite) (task : string),
     configurable cfg = Some k → thread_id k = Some t →
     checkpoint_id k = Some i →
     checkpoints db !! (t, default "" (checkpoint_ns k), i) = Some c →
     putWrites db cfg ws task = Ok db' →
     Forall (λ w : PendingWrite, roundtrips w.2 w.2) ws →
     ∃ tup,
       getTuple db' cfg = Ok (Some tup) ∧
       filter (λ e : string * string * Value, e.1.1 = task) (pendingWrites tup)
       = ((decode_write <$>
             filter (λ r, writes_of_task t (default "" (checkpoint_ns k)) i task r ∧
                          wk_idx r.1 < 0) (table_rows (writes db)))
          ++ ((λ w : PendingWrite, (task, w.1, w.2)) <$> ws)
          ++ (decode_write <$>
                filter (λ r, writes_of_task t (default "" (checkpoint_ns k)) i task r ∧
                             Z.of_nat (length ws) ≤ wk_idx r.1)
                  (table_rows (writes db))))%list).
Proof.
  split.
  - intros db cfg tup (key & c & Hc & Hm & Hid & Ht & Hns & _ & _ & Hpw)%getTuple_Some.
    destruct key as [[t ns] i]. simpl in *.
    exists t, ns, i,
      (filter (writes_of_checkpoint t ns i) (table_rows (writes db))).
    split_and!; try done.
    + by rewrite Hpw, decode_pending_writes_row.
    + intros k w. rewrite list_elem_of_filter, elem_of_table_rows. tauto.
    + apply writes_of_checkpoint_sorted.
  - intros db db' cfg k t i c ws task Hk Ht Hi Hc Hput Hrt.
    destruct (putWrites_Ok _ _ _ _ _ _ Hk Hput) as (t' & i' & Ht' & Hi' & Hne & ->).
    rewrite Ht in Ht'. rewrite Hi in Hi'. simplify_eq.
    set (ns := default "" (checkpoint_ns k)) in *.
    destruct (getTuple_by_id
                {| checkpoints := checkpoints db;
                   writes := batch_insert (write_statements t' ns i' task ws)
                               (writes db) |} cfg k t' i' c Hk Ht Hi Hne Hc)
      as (tup & Hget & _ & Hpw).
    exists tup. split; [done|].
    rewrite Hpw, decode_pending_writes_row. simpl. fold ns.
    rewrite filter_fmap_comm, list_filter_filter.
    rewrite (list_filter_iff _ (writes_of_task t' ns i' task)).
    + rewrite putWrites_task_rows, !fmap_app.
      by rewrite decode_write_statements.
    + intros r. unfold writes_of_task, decode_write. simpl. tauto.
Qed.

(** ** Where the migration and [list] leave the partition (C3, C4, C9) *)

(** The SELECT of the migration names the thread and the parent id and no
    namespace: a send recorded under any namespace of the thread is read. *)
Lemma migration_reads_every_namespace (db : Db) (t ns p task : string)
    (idx : Z) (w : WriteCols) :
  writes db !! (t, ns, p, task, idx) = Some w →
  w_channel w = TASKS →
  loadsTyped (w_type w) (cast_as_text (w_value w)) ∈ migration_sends db t p.
Proof.
  intros Hw Hch. unfold migration_sends.
  apply (list_elem_of_fmap_2' _ _ (pending_send_column ((t, ns, p, task, idx), w)));
    [|done].
  apply list_elem_of_fmap_2.
  apply list_elem_of_filter. split; [done|]. by apply elem_of_table_rows.
Qed.

(** The subquery [pending_sends] of a checkpoint row does name the
    namespace. *)
Lemma pending_sends_one_namespace (db : Db) (t ns : string)
    (parent : option string) (s : PendingSendColumn) :
  s ∈ select_pending_sends db t ns parent →
  ∃ p task idx w,
    parent = Some p ∧ writes db !! (t, ns, p, task, idx) = Some w ∧
    w_channel w = TASKS ∧ s = pending_send_column ((t, ns, p, task, idx), w).
Proof.
  unfold select_pending_sends. destruct parent as [p|].
  - intros ([k w] & -> & Hin)%list_elem_of_fmap.
    apply list_elem_of_filter in Hin as [[Hk Hch] Hl%elem_of_table_rows].
    destruct k as [[[[t' ns'] p'] task] idx].
    destruct Hk as (Ht & Hns & Hp).
    unfold wk_thread_id, wk_checkpoint_ns, wk_checkpoint_id in *.
    simpl in *. subst. by exists p, task, idx, w.
  - by intros ?%elem_of_nil.
Qed.

(** With no send to read, the migration still sets the TASKS channel: its
    SELECT yields one row with the empty array. *)
Lemma migration_without_sends (db : Db) (c : Checkpoint) (t p : string) :
  (∀ k w, writes db !! k = Some w →
          ¬ (wk_thread_id k = t ∧ wk_checkpoint_id k = p ∧ w_channel w = TASKS)) →
  obj_get TASKS (channel_values (migratePendingSends db c t p)) = Some (VArr []) ∧
  is_Some (obj_get TASKS (channel_versions (migratePendingSends db c t p))).
Proof.
  intros Hno. unfold migratePendingSends, select_migration. simpl.
  rewrite !obj_get_set_eq. rewrite filter_none; [by eauto|].
  intros [k w] Hin%elem_of_table_rows. by apply Hno.
Qed.

(** Without a thread id in the config [list] has no thread predicate:
    every checkpoint of the store that passes the other predicates is
    yielded, whatever its thread. *)
Lemma list_without_thread (db : Db) (cfg : RunnableConfig)
    (before : option RunnableConfig) (filter_ : option (obj (option Value))) :
  configurable cfg ≫= thread_id = None →
  ∃ tuples,
    list_ db cfg (Some {| opt_limit := None; opt_before := before;
                          opt_filter := filter_ |}) = Ok tuples ∧
    ∀ t ns i c,
      checkpoints db !! (t, ns, i) = Some c →
      list_matching None (configurable cfg ≫= checkpoint_ns)
        ((before ≫= configurable) ≫= checkpoint_id)
        (sanitizedFilter filter_) ((t, ns, i), c) →
      key_config t ns i ∈ config <$> tuples.
Proof.
  intros Hth. eexists. split.
  - apply list_rows. by rewrite Hth.
  - intros t ns i c Hc Hm. rewrite Hth. simpl.
    rewrite <-!list_fmap_compose.
    apply (list_elem_of_fmap_2' _ _ ((t, ns, i), c)); [|done].
    unfold list_before. simpl.
    rewrite order_by_checkpoint_id_desc_perm.
    apply list_elem_of_filter. split; [done|]. by apply elem_of_table_rows.
Qed.

(** ** What a read depends on *)

(** Two tables that agree on the rows a selection takes give the same
    selection. *)
Lemma table_rows_filter_agree `{Countable K} `{!Compare K, !CompareLaws K}
    {V : Type} (P : K * V → Prop) `{∀ r, Decision (P r)} (t1 t2 : gmap K V) :
  (∀ k v, P (k, v) → t1 !! k = Some v ↔ t2 !! k = Some v) →
  filter P (table_rows t1) = filter P (table_rows t2).
Proof.
  intros Hag. apply table_rows_filter_eq.
  - apply StronglySorted_filter, table_rows_sorted.
  - intros k v. rewrite list_elem_of_filter, elem_of_table_rows.
    split; intros [HP Hl]; (split; [done|]); by apply (Hag k v HP).
Qed.

(** The rows of [writes] of one thread are the same in two stores. *)
Definition writes_agree (t : string) (db1 db2 : Db) : Prop :=
  ∀ k w, wk_thread_id k = t →
         writes db1 !! k = Some w ↔ writes db2 !! k = Some w.

Lemma checkpoint_row_agree db1 db2 (r : CheckpointKey * CheckpointCols) :
  writes_agree r.1.1.1 db1 db2 → checkpoint_row db1 r = checkpoint_row db2 r.
Proof.
  intros Hag. unfold checkpoint_row, select_pending_writes, select_pending_sends.
  f_equal.
  - f_equal. apply table_rows_filter_agree.
    intros k w (Ht & _ & _). by apply Hag.
  - destruct (c_parent_checkpoint_id r.2) as [p|]; [|done].
    f_equal. apply table_rows_filter_agree.
    intros k w [(Ht & _ & _) _]. by apply Hag.
Qed.

Lemma decode_checkpoint_agree db1 db2 (row : CheckpointRow) :
  writes_agree (row_thread_id row) db1 db2 →
  decode_checkpoint db1 row = decode_checkpoint db2 row.
Proof.
  intros Hag. unfold decode_checkpoint.
  destruct (row_parent_checkpoint_id row) as [p|]; [|done].
  case_decide; [|done].
  unfold migratePendingSends, select_migration.
  rewrite (table_rows_filter_agree _ (writes db1) (writes db2)); [done|].
  intros k w (Ht & _ & _). by apply Hag.
Qed.

Lemma getTuple_agree db1 db2 cfg :
  let k := default no_configurable (configurable cfg) in
  (∀ key c, matching k key →
            checkpoints db1 !! key = Some c ↔ checkpoints db2 !! key = Some c) →
  (∀ t, thread_id k = Some t → writes_agree t db1 db2) →
  getTuple db1 cfg = getTuple db2 cfg.
Proof.
  intros k Hc Hw. rewrite !getTuple_execute, !getTuple_rows. fold k.
  rewrite (table_rows_filter_agree (λ r, matching k r.1)
             (checkpoints db1) (checkpoints db2))
    by (intros key c; apply Hc).
  set (F := filter (λ r, matching k r.1) (table_rows (checkpoints db2))).
  set (rows := if truthy (checkpoint_id k) then F
               else take 1 (order_by_checkpoint_id_desc F)).
  assert (Hsub : ∀ r, r ∈ rows → matching k r.1).
  { intros r Hr. assert (r ∈ F) as [Hm _]%list_elem_of_filter; [|done].
    unfold rows in Hr. destruct (truthy (checkpoint_id k)); [done|].
    rewrite <-(order_by_checkpoint_id_desc_perm F).
    rewrite <-(take_drop 1 (order_by_checkpoint_id_desc F)).
    apply elem_of_app. by left. }
  destruct rows as [|r rows']; [done|].
  destruct (Hsub r) as (Ht & _ & _); [left|].
  specialize (Hw _ Ht). simpl.
  rewrite (checkpoint_row_agree db1 db2 r Hw).
  by rewrite (decode_checkpoint_agree db1 db2 (checkpoint_row db2 r)).
Qed.

Lemma list_agree db1 db2 cfg options t :
  configurable cfg ≫= thread_id = Some t → t ≠ "" →
  (∀ key c, key.1.1 = t →
            checkpoints db1 !! key = Some c ↔ checkpoints db2 !! key = Some c) →
  writes_agree t db1 db2 →
  list_ db1 cfg options = list_ db2 cfg options.
Proof.
  intros Ht Hne Hc Hw. rewrite !list_rows by (rewrite Ht; congruence).
  rewrite Ht. f_equal.
  rewrite (table_rows_filter_agree _ (checkpoints db1) (checkpoints db2)).
  2:{ intros key c (Hth & _). simpl in Hth. by apply Hc. }
  set (L := sql_limit _ _).
  assert (HL : ∀ r, r ∈ L → r.1.1.1 = t).
  { intros r Hr. unfold L in Hr.
    destruct (sql_limit_take (list_limit options)
                (order_by_checkpoint_id_desc
                   (filter (list_matching (Some t)
                              (configurable cfg ≫= checkpoint_ns)
                              (list_before options)
                              (sanitizedFilter (options ≫= opt_filter)))
                      (table_rows (checkpoints db2))))) as [n Hn].
    rewrite Hn in Hr. apply elem_of_take in Hr as (j & Hj & _).
    apply list_elem_of_lookup_2 in Hj.
    rewrite order_by_checkpoint_id_desc_perm in Hj.
    by apply list_elem_of_filter in Hj as [(Hth & _) _]. }
  rewrite <-!list_fmap_compose. apply list_fmap_ext.
  intros j r Hj. apply list_elem_of_lookup_2, HL in Hj. simpl.
  assert (writes_agree r.1.1.1 db1 db2) as Hwr by (by rewrite Hj).
  rewrite (checkpoint_row_agree db1 db2 r Hwr). unfold list_tuple.
  by rewrite (decode_checkpoint_agree db1 db2 (checkpoint_row db2 r)).
Qed.

(** ** Threads are kept apart *)

(** The rows of one thread, of both tables, in the order of the keys. *)
Definition thread_rows (t : string) (db : Db)
    : list (CheckpointKey * CheckpointCols) * list (WriteKey * WriteCols) :=
  (filter (λ r : CheckpointKey * CheckpointCols, r.1.1.1 = t)
     (table_rows (checkpoints db)),
   filter (λ r : WriteKey * WriteCols, wk_thread_id r.1 = t)
     (table_rows (writes db))).

Lemma thread_rows_agree t db1 db2 :
  thread_rows t db1 = thread_rows t db2 →
  (∀ key c, key.1.1 = t →
            checkpoints db1 !! key = Some c ↔ checkpoints db2 !! key = Some c) ∧
  writes_agree t db1 db2.
Proof.
  intros [= Hc Hw]. split.
  - intros key c Hk. rewrite <-!elem_of_table_rows.
    trans ((key, c) ∈ filter (λ r : CheckpointKey * CheckpointCols, r.1.1.1 = t)
                        (table_rows (checkpoints db1))).
    + rewrite list_elem_of_filter. tauto.
    + rewrite Hc, list_elem_of_filter. tauto.
  - intros k w Hk. rewrite <-!elem_of_table_rows.
    trans ((k, w) ∈ filter (λ r : WriteKey * WriteCols, wk_thread_id r.1 = t)
                      (table_rows (writes db1))).
    + rewrite list_elem_of_filter. tauto.
    + rewrite Hw, list_elem_of_filter. tauto.
Qed.

Lemma matching_thread cfg t key :
  configurable cfg ≫= thread_id = Some t →
  matching (default no_configurable (configurable cfg)) key → key.1.1 = t.
Proof.
  destruct (configurable cfg) as [k|]; [|done]. simpl.
  intros Ht (Hm & _). congruence.
Qed.

Lemma config_thread cfg t t' :
  configurable cfg ≫= thread_id = Some t →
  thread_id (default no_configurable (configurable cfg)) = Some t' → t' = t.
Proof. destruct (configurable cfg) as [k|]; [|done]. simpl. congruence. Qed.

(** X1. [getTuple] and [list] for a thread read the rows of that thread
    and nothing else: two stores with the same rows of the thread give the
    same answers. *)
Theorem reads_depend_on_thread (db1 db2 : Db) (cfg : RunnableConfig)
    (options : option CheckpointListOptions) (t : string) :
  configurable cfg ≫= thread_id = Some t →
  thread_rows t db1 = thread_rows t db2 →
  getTuple db1 cfg = getTuple db2 cfg ∧
  (t ≠ "" → list_ db1 cfg options = list_ db2 cfg options).
Proof.
  intros Ht [Hc Hw]%thread_rows_agree. split.
  - apply getTuple_agree.
    + intros key c Hm. apply Hc. by apply (matching_thread cfg).
    + intros t' Ht'. by rewrite (config_thread cfg t t').
  - intros Hne. by apply (list_agree db1 db2 cfg options t).
Qed.

(** ** [deleteThread] *)

Lemma deleteThread_checkpoints db T key c :
  checkpoints (deleteThread db T) !! key = Some c ↔
  checkpoints db !! key = Some c ∧ key.1.1 ≠ T.
Proof. unfold deleteThread. simpl. by rewrite map_lookup_filter_Some. Qed.

Lemma deleteThread_writes db T k w :
  writes (deleteThread db T) !! k = Some w ↔
  writes db !! k = Some w ∧ wk_thread_id k ≠ T.
Proof. unfold deleteThread. simpl. by rewrite map_lookup_filter_Some. Qed.

Lemma order_by_checkpoint_id_desc_nil : order_by_checkpoint_id_desc [] = [].
Proof. reflexivity. Qed.

Lemma sql_limit_nil {A} (n : option Z) : sql_limit n (@nil A) = [].
Proof. destruct n as [n|]; simpl; [|done]. case_decide; [done|apply take_nil]. Qed.

(** X2. After [deleteThread] the store has no row of the thread in either
    table; [getTuple] for the thread finds nothing, whatever checkpoint
    the config names, and [list] for the thread yields nothing, whatever
    the options. *)
Theorem deleteThread_erases (db : Db) (T : string) (cfg : RunnableConfig)
    (options : option CheckpointListOptions) :
  configurable cfg ≫= thread_id = Some T →
  thread_rows T (deleteThread db T) = ([], []) ∧
  getTuple (deleteThread db T) cfg = Ok None ∧
  (T ≠ "" → list_ (deleteThread db T) cfg options = Ok []).
Proof.
  intros HT. split_and!.
  - unfold thread_rows. f_equal; apply filter_none.
    + intros [key c] [_ Hne]%elem_of_table_rows%deleteThread_checkpoints. done.
    + intros [k w] [_ Hne]%elem_of_table_rows%deleteThread_writes. done.
  - rewrite getTuple_execute, getTuple_rows. rewrite filter_none.
    + by destruct (truthy _).
    + intros [key c] [_ Hne]%elem_of_table_rows%deleteThread_checkpoints Hm.
      by apply Hne, (matching_thread cfg).
  - intros Hne. rewrite list_rows by (rewrite HT; congruence).
    rewrite HT, filter_none.
    + by rewrite order_by_checkpoint_id_desc_nil, sql_limit_nil.
    + intros [key c] [_ Hk]%elem_of_table_rows%deleteThread_checkpoints (Hth & _).
      done.
Qed.

(** X3. [deleteThread] leaves every other thread as it was: its rows in
    both tables, and what [getTuple] and [list] answer for it. *)
Theorem deleteThread_keeps_other_threads (db : Db) (T t : string)
    (cfg : RunnableConfig) (options : option CheckpointListOptions) :
  configurable cfg ≫= thread_id = Some t → t ≠ T →
  thread_rows t (deleteThread db T) = thread_rows t db ∧
  getTuple (deleteThread db T) cfg = getTuple db cfg ∧
  (t ≠ "" → list_ (deleteThread db T) cfg options = list_ db cfg options).
Proof.
  intros Ht HtT.
  assert (Hc : ∀ key c, key.1.1 = t →
            checkpoints (deleteThread db T) !! key = Some c ↔
            checkpoints db !! key = Some c).
  { intros key c Hk. rewrite deleteThread_checkpoints. split; [tauto|].
    intros Hl. split; [done|congruence]. }
  assert (Hw : writes_agree t (deleteThread db T) db).
  { intros k w Hk. rewrite deleteThread_writes. split; [tauto|].
    intros Hl. split; [done|congruence]. }
  split_and!.
  - unfold thread_rows. f_equal; apply table_rows_filter_agree.
    + intros key c Hk. by apply Hc.
    + intros k w Hk. by apply Hw.
  - apply getTuple_agree.
    + intros key c Hm. apply Hc. by apply (matching_thread cfg).
    + intros t' Ht'. by rewrite (config_thread cfg t t').
  - intros Hne. by apply (list_agree _ _ cfg options t).
Qed.

(** X4. [deleteThread] for a thread the store has no row of changes
    nothing. *)
Theorem deleteThread_absent (db : Db) (T : string) :
  thread_rows T db = ([], []) → deleteThread db T = db.
Proof.
  intros [= Hc Hw]. unfold deleteThread. destruct db as [cp w]. simpl in *.
  f_equal; apply map_filter_id.
  - intros key c Hl Heq. apply elem_of_table_rows in Hl.
    assert ((key, c) ∈ filter (λ r : CheckpointKey * CheckpointCols, r.1.1.1 = T)
                         (table_rows cp)) as Hin
      by (by apply list_elem_of_filter).
    rewrite Hc in Hin. by apply elem_of_nil in Hin.
  - intros k v Hl Heq. apply elem_of_table_rows in Hl.
    assert ((k, v) ∈ filter (λ r : WriteKey * WriteCols, wk_thread_id r.1 = T)
                       (table_rows w)) as Hin
      by (by apply list_elem_of_filter).
    rewrite Hw in Hin. by apply elem_of_nil in Hin.
Qed.

(** ** More on [put] *)

Lemma put_succeeds db cfg c m k t :
  configurable cfg = Some k → thread_id k = Some t → t ≠ "" →
  (dumpsTyped (copyCheckpoint c)).1 = (dumpsTyped m).1 →
  put db cfg c m =
    Ok ({| checkpoints :=
             <[ (t, default "" (checkpoint_ns k), cp_id c) := put_row k c m ]>
             (checkpoints db);
           writes := writes db |},
        key_config t (default "" (checkpoint_ns k)) (cp_id c)).
Proof.
  intros Hk Ht Hne Hty. unfold put, put_row. rewrite Hk, Ht.
  rewrite decide_False by done.
  destruct (dumpsTyped (copyCheckpoint c)) as [ty1 sc].
  destruct (dumpsTyped m) as [ty2 sm]. simpl in *. by rewrite decide_True.
Qed.

(** X5. [put] fails exactly when the config has no thread id that counts
    (no [configurable], no thread id, or the empty one) or the serializer
    tags the checkpoint and the metadata differently; the store it is
    given plays no part in that. *)
Theorem put_fails_iff (db : Db) (cfg : RunnableConfig) (c : Checkpoint)
    (m : CheckpointMetadata) :
  (∃ e, put db cfg c m = Err e) ↔
  truthy (configurable cfg ≫= thread_id) = false ∨
  (dumpsTyped (copyCheckpoint c)).1 ≠ (dumpsTyped m).1.
Proof.
  unfold put. destruct (configurable cfg) as [k|]; simpl;
    [|split; [by left|by eexists]].
  destruct (thread_id k) as [t|]; simpl; [|split; [by left|by eexists]].
  destruct (decide (t = "")); [split; [by left|by eexists]|].
  destruct (dumpsTyped (copyCheckpoint c)) as [ty1 sc].
  destruct (dumpsTyped m) as [ty2 sm]. simpl.
  destruct (decide (ty1 = ty2)).
  - split; [by intros [msg ?]|]. by intros [?|?].
  - split; [by right|by eexists].
Qed.

(** X6. A repeated [put] changes nothing: the same call on the store the
    first call left gives that store again, and the same config. *)
Theorem put_retry (db db' : Db) (cfg out : RunnableConfig) (c : Checkpoint)
    (m : CheckpointMetadata) :
  put db cfg c m = Ok (db', out) →
  put db' cfg c m = Ok (db', out).
Proof.
  intros (k & t & Hk & Ht & Hne & Hty & -> & ->)%put_Ok.
  rewrite (put_succeeds _ cfg c m k t) by done. simpl.
  by rewrite insert_insert_eq.
Qed.

(** X7. [put] leaves the table [writes] as it was, and [getTuple] answers
    as before for every config that does not address the row written. *)
Theorem put_keeps_other_checkpoints (db db' : Db) (cfg : RunnableConfig)
    (c : Checkpoint) (m : CheckpointMetadata) (t ns i : string) :
  put db cfg c m = Ok (db', key_config t ns i) →
  writes db' = writes db ∧
  ∀ cfg', ¬ matching (default no_configurable (configurable cfg')) (t, ns, i) →
          getTuple db' cfg' = getTuple db cfg'.
Proof.
  intros (k & t' & Hk & Ht & Hne & Hty & -> & [= <- <- <-])%put_Ok.
  split; [done|]. intros cfg' Hno. apply getTuple_agree.
  - intros key c' Hm. simpl. rewrite lookup_insert_ne; [done|].
    by intros <-.
  - by intros t'' _ wk w _.
Qed.

(** The latest checkpoint of a partition, from the row with the greatest
    id. *)
Lemma getTuple_greatest db cfg t j cj :
  let k := default no_configurable (configurable cfg) in
  let ns := default "" (checkpoint_ns k) in
  thread_id k = Some t → truthy (checkpoint_id k) = false →
  checkpoints db !! (t, ns, j) = Some cj →
  (∀ i c, checkpoints db !! (t, ns, i) = Some c → cle i j) →
  getTuple db cfg =
    Ok (Some
      {| checkpoint := decode_checkpoint db (checkpoint_row db ((t, ns, j), cj));
         config := key_config t ns j;
         metadata := decode_metadata (checkpoint_row db ((t, ns, j), cj));
         parentConfig :=
           if truthy (c_parent_checkpoint_id cj)
           then Some {| configurable := Some
                  {| thread_id := Some t; checkpoint_ns := Some ns;
                     checkpoint_id := c_parent_checkpoint_id cj |} |}
           else None;
         pendingWrites :=
           decode_pending_writes (checkpoint_row db ((t, ns, j), cj)) |}).
Proof.
  intros k ns Ht Hid Hj Hmax.
  rewrite getTuple_execute, getTuple_rows. fold k. rewrite Hid.
  set (rows := filter (λ r, matching k r.1) (table_rows (checkpoints db))).
  assert (Hrows : ∀ key c, (key, c) ∈ rows ↔
            ∃ i, key = (t, ns, i) ∧ checkpoints db !! key = Some c).
  { intros [[t' ns'] i'] c'. unfold rows.
    rewrite list_elem_of_filter, elem_of_table_rows.
    unfold matching. rewrite Ht, Hid. simpl. split.
    - intros [([= <-] & -> & _) Hl]. by exists i'.
    - intros (i'' & [= -> -> ->] & Hl). done. }
  pose proof (order_by_checkpoint_id_desc_sorted rows) as Hs.
  pose proof (order_by_checkpoint_id_desc_perm rows) as Hp.
  assert (Hin : ((t, ns, j), cj) ∈ order_by_checkpoint_id_desc rows).
  { rewrite Hp. apply Hrows. eauto. }
  destruct (order_by_checkpoint_id_desc rows) as [|[key c] L].
  { by apply elem_of_nil in Hin. }
  assert (Hhd : (key, c) ∈ rows) by (rewrite <-Hp; left).
  apply Hrows in Hhd as (j' & -> & Hj').
  assert (j' = j) as ->.
  { apply (anti_symm cle); [by eapply Hmax|].
    apply StronglySorted_inv in Hs as [_ Hall].
    apply elem_of_cons in Hin as [[= ->]|Hin]; [apply cle_refl|].
    rewrite Forall_forall in Hall. apply (Hall _ Hin). }
  rewrite Hj in Hj'. injection Hj' as <-. done.
Qed.

(** X8. A checkpoint put with an id that no id of its partition exceeds
    is the latest of the partition: [getTuple] without a checkpoint id
    returns it, under the config [put] returned. *)
Theorem put_greatest_is_latest (db db' : Db) (cfg : RunnableConfig)
    (C : Checkpoint) (M : CheckpointMetadata) (t ns : string) :
  put db cfg C M = Ok (db', key_config t ns (cp_id C)) →
  (∀ i c, checkpoints db !! (t, ns, i) = Some c → cle i (cp_id C)) →
  4 ≤ cp_v C →
  roundtrips (copyCheckpoint C) C →
  roundtrips M M →
  ∃ tup, getTuple db' (partition_config t ns) = Ok (Some tup) ∧
         config tup = key_config t ns (cp_id C) ∧
         checkpoint tup = C ∧ metadata tup = M.
Proof.
  intros (k & t' & Hk & Ht & Hne & Hty & -> & [= -> ->])%put_Ok Hmax Hv HC HM.
  eexists. split.
  - apply (getTuple_greatest _ (partition_config t' (default "" (checkpoint_ns k)))
             t' (cp_id C) (put_row k C M)); [done|done| |].
    + simpl. apply lookup_insert_eq.
    + intros i c. simpl. destruct (decide (i = cp_id C)) as [->|Hi].
      * intros _. apply cle_refl.
      * rewrite lookup_insert_ne by congruence. apply Hmax.
  - unfold roundtrips in *. simpl in *. split_and!; [done| |].
    + unfold decode_checkpoint. simpl. rewrite HC.
      destruct (checkpoint_id k); [|done]. by rewrite decide_False by lia.
    + unfold decode_metadata. simpl. by rewrite Hty.
Qed.

(** X9. The tuple [getTuple] returns for a checkpoint just put carries the
    config [put] returned, and as its parent the checkpoint the config of
    [put] was positioned on, in the same partition; it has no parent when
    that config had no checkpoint id, or the empty one. *)
Theorem put_getTuple_parentConfig (db db' : Db) (cfg out : RunnableConfig)
    (C : Checkpoint) (M : CheckpointMetadata) :
  put db cfg C M = Ok (db', out) →
  cp_id C ≠ "" →
  ∃ tup k,
    configurable cfg = Some k ∧
    getTuple db' out = Ok (Some tup) ∧
    config tup = out ∧
    parentConfig tup =
      if truthy (checkpoint_id k)
      then Some {| configurable := Some
             {| thread_id := thread_id k;
                checkpoint_ns := Some (default "" (checkpoint_ns k));
                checkpoint_id := checkpoint_id k |} |}
      else None.
Proof.
  intros (k & t & Hk & Ht & _ & Hty & -> & ->)%put_Ok Hid.
  eexists _, k. split; [done|]. split.
  - apply getTuple_key_config; [done|]. simpl. apply lookup_insert_eq.
  - simpl. by rewrite Ht.
Qed.

Lemma migratePendingSends_keeps (db : Db) (c : Checkpoint) (t p : string) :
  let c' := migratePendingSends db c t p in
  cp_v c' = cp_v c ∧ cp_id c' = cp_id c ∧ cp_ts c' = cp_ts c ∧
  versions_seen c' = versions_seen c ∧
  ∀ ch, ch ≠ TASKS →
        obj_get ch (channel_values c') = obj_get ch (channel_values c) ∧
        obj_get ch (channel_versions c') = obj_get ch (channel_versions c).
Proof.
  unfold migratePendingSends, select_migration. simpl. split_and!; try done.
  intros ch Hch. split; by apply obj_get_set_ne.
Qed.

(** X10. A checkpoint of any version comes back from [put] and [getTuple]
    with its version, id, timestamp and seen versions, and with the value
    and the version of every channel other than TASKS; it comes back
    whole when the config of [put] carried no checkpoint id. *)
Theorem put_getTuple_any_version (db db' : Db) (cfg out : RunnableConfig)
    (C : Checkpoint) (M : CheckpointMetadata) :
  put db cfg C M = Ok (db', out) →
  cp_id C ≠ "" →
  roundtrips (copyCheckpoint C) C →
  ∃ tup,
    getTuple db' out = Ok (Some tup) ∧
    cp_v (checkpoint tup) = cp_v C ∧ cp_id (checkpoint tup) = cp_id C ∧
    cp_ts (checkpoint tup) = cp_ts C ∧
    versions_seen (checkpoint tup) = versions_seen C ∧
    (∀ ch, ch ≠ TASKS →
       obj_get ch (channel_values (checkpoint tup)) = obj_get ch (channel_values C) ∧
       obj_get ch (channel_versions (checkpoint tup))
         = obj_get ch (channel_versions C)) ∧
    (configurable cfg ≫= checkpoint_id = None → checkpoint tup = C).
Proof.
  intros (k & t & Hk & Ht & _ & Hty & -> & ->)%put_Ok Hid HC.
  eexists. split.
  - apply getTuple_key_config; [done|]. simpl. apply lookup_insert_eq.
  - unfold roundtrips in HC. simpl in HC |- *. unfold decode_checkpoint. simpl.
    rewrite HC, Hk. simpl.
    destruct (checkpoint_id k) as [p|]; [|done].
    case_decide; [|done].
    destruct (migratePendingSends_keeps
                {| checkpoints :=
                     <[ (t, default "" (checkpoint_ns k), cp_id C) :=
                        put_row k C M ]> (checkpoints db);
                   writes := writes db |} C t p)
      as (Hv & Hi & Hts & Hseen & Hch).
    by split_and!.
Qed.

(** ** More on [putWrites] *)

Lemma putWrites_succeeds db cfg ws task k t i :
  configurable cfg = Some k → thread_id k = Some t → t ≠ "" →
  checkpoint_id k = Some i → i ≠ "" →
  putWrites db cfg ws task =
    Ok {| checkpoints := checkpoints db;
          writes :=
            batch_insert
              (write_statements t (default "" (checkpoint_ns k)) i task ws)
              (writes db) |}.
Proof.
  intros Hk Ht Hne Hi Hni. unfold putWrites. rewrite Hk, Ht, Hi. simpl.
  by rewrite !decide_False by done.
Qed.

(** X11. [putWrites] fails exactly when the config has no thread id that
    counts or no checkpoint id that counts (absent or empty); neither the
    store nor the writes play a part in that. *)
Theorem putWrites_fails_iff (db : Db) (cfg : RunnableConfig)
    (ws : list PendingWrite) (task : string) :
  (∃ e, putWrites db cfg ws task = Err e) ↔
  truthy (configurable cfg ≫= thread_id) = false ∨
  truthy (configurable cfg ≫= checkpoint_id) = false.
Proof.
  unfold putWrites. destruct (configurable cfg) as [k|]; simpl;
    [|split; [by left|by eexists]].
  destruct (truthy (thread_id k)); [|split; [by left|by eexists]].
  destruct (truthy (checkpoint_id k)); [|split; [by right|by eexists]].
  split; [by intros [msg ?]|]. by intros [?|?].
Qed.

Lemma write_statement_cols t ns i task j (w : PendingWrite) :
  (write_statement t ns i task j w).2 =
    {| w_channel := w.1; w_type := Some (dumpsTyped w.2).1;
       w_value := SqlBlob (dumpsTyped w.2).2 |}.
Proof. unfold write_statement. by destruct (dumpsTyped w.2). Qed.

(** X12. A successful [putWrites] stores the write at position [j] of the
    list under the index [j] of the task and the checkpoint the config
    names, with its channel and its serialized value, and replaces what was
    there; it changes no other row of [writes] and no checkpoint. *)
Theorem putWrites_rows (db db' : Db) (cfg : RunnableConfig)
    (ws : list PendingWrite) (task : string) :
  putWrites db cfg ws task = Ok db' →
  ∃ k t i,
    configurable cfg = Some k ∧ thread_id k = Some t ∧ checkpoint_id k = Some i ∧
    checkpoints db' = checkpoints db ∧
    (∀ j w, ws !! j = Some w →
       writes db' !! (t, default "" (checkpoint_ns k), i, task, Z.of_nat j)
       = Some {| w_channel := w.1; w_type := Some (dumpsTyped w.2).1;
                 w_value := SqlBlob (dumpsTyped w.2).2 |}) ∧
    (∀ key : WriteKey,
       (∀ j, (j < length ws)%nat →
             key ≠ (t, default "" (checkpoint_ns k), i, task, Z.of_nat j)) →
       writes db' !! key = writes db !! key).
Proof.
  intros Hput. destruct (configurable cfg) as [k|] eqn:Hk;
    [|by unfold putWrites in Hput; rewrite Hk in Hput].
  destruct (putWrites_Ok db cfg ws task db' k Hk Hput)
    as (t & i & Ht & Hi & Hne & ->).
  exists k, t, i. split_and!; [done..| |].
  - intros j w Hj. simpl. rewrite <-write_statement_cols with (j := j)
      (t := t) (ns := default "" (checkpoint_ns k)) (i := i) (task := task).
    apply batch_insert_lookup_in.
    + apply key_lt_NoDup_fst, write_statements_sorted.
    + rewrite <-write_statement_key with (wr := w).
      rewrite <-surjective_pairing.
      apply elem_of_write_statements. eauto.
  - intros key Hkey. simpl. apply batch_insert_lookup_notin.
    intros (j & Hj & ->)%write_statements_keys. by apply (Hkey j).
Qed.

Lemma batch_insert_idemp (stmts : list (WriteKey * WriteCols))
    (m : gmap WriteKey WriteCols) :
  NoDup stmts.*1 →
  batch_insert stmts (batch_insert stmts m) = batch_insert stmts m.
Proof.
  intros Hnd. apply map_eq. intros key.
  destruct (decide (key ∈ stmts.*1)) as [Hin|Hout].
  - apply list_elem_of_fmap in Hin as ([key' w] & -> & Hin).
    by rewrite !(batch_insert_lookup_in stmts _ key' w Hnd Hin).
  - by rewrite (batch_insert_lookup_notin stmts (batch_insert stmts m)).
Qed.

(** X13. A repeated [putWrites] changes nothing: the same call on the store
    the first call left gives that store again. *)
Theorem putWrites_retry (db db' : Db) (cfg : RunnableConfig)
    (ws : list PendingWrite) (task : string) :
  putWrites db cfg ws task = Ok db' →
  putWrites db' cfg ws task = Ok db'.
Proof.
  intros Hput. destruct (configurable cfg) as [k|] eqn:Hk;
    [|by unfold putWrites in Hput; rewrite Hk in Hput].
  destruct (putWrites_Ok db cfg ws task db' k Hk Hput)
    as (t & i & Ht & Hi & Hne & ->).
  assert (t ≠ "") as Hnt.
  { intros ->. unfold putWrites in Hput. rewrite Hk, Ht in Hput. done. }
  rewrite (putWrites_succeeds _ cfg ws task k t i) by done. simpl.
  rewrite batch_insert_idemp; [done|].
  apply key_lt_NoDup_fst, write_statements_sorted.
Qed.

(** X14. Writes may be recorded before their checkpoint is stored: once the
    checkpoint is put under the key the writes name, [getTuple] returns
    them with it, the writes of the task in input order between the rows
    the table had for the task below index 0 and from the length of the
    list on. *)
Theorem putWrites_before_put (db db1 db2 : Db) (cfg : RunnableConfig)
    (ws : list PendingWrite) (task t ns i : string)
    (C : Checkpoint) (M : CheckpointMetadata) :
  putWrites db (key_config t ns i) ws task = Ok db1 →
  put db1 cfg C M = Ok (db2, key_config t ns i) →
  Forall (λ w : PendingWrite, roundtrips w.2 w.2) ws →
  ∃ tup,
    getTuple db2 (key_config t ns i) = Ok (Some tup) ∧
    filter (λ e : string * string * Value, e.1.1 = task) (pendingWrites tup)
    = ((decode_write <$>
          filter (λ r, writes_of_task t ns i task r ∧ wk_idx r.1 < 0)
            (table_rows (writes db)))
       ++ ((λ w : PendingWrite, (task, w.1, w.2)) <$> ws)
       ++ (decode_write <$>
             filter (λ r, writes_of_task t ns i task r ∧
                          Z.of_nat (length ws) ≤ wk_idx r.1)
               (table_rows (writes db))))%list.
Proof.
  intros Hw Hp Hrt.
  destruct (putWrites_Ok db (key_config t ns i) ws task db1 _ eq_refl Hw)
    as (t' & i' & [= <-] & [= <-] & Hne & ->). simpl in *.
  apply put_Ok in Hp as (k & t' & Hk & Ht & _ & _ & -> & [= -> Hns Hi]).
  eexists. split.
  - apply getTuple_key_config; [done|]. simpl. rewrite Hns, Hi.
    apply lookup_insert_eq.
  - simpl. rewrite decode_pending_writes_row. simpl.
    rewrite filter_fmap_comm, list_filter_filter.
    rewrite (list_filter_iff _ (writes_of_task t' ns i task)).
    + rewrite putWrites_task_rows, !fmap_app.
      by rewrite decode_write_statements.
    + intros r. unfold writes_of_task, decode_write. simpl. tauto.
Qed.

(** ** More on [getTuple] *)

(** X15. For a config with a thread id [getTuple] gives an answer, a tuple
    or nothing: the statement gets as many arguments as it has
    placeholders, and the check for a missing thread id or checkpoint id
    after the query never fires. *)
Theorem getTuple_answers (db : Db) (cfg : RunnableConfig) :
  is_Some (configurable cfg ≫= thread_id) →
  ∃ answer, getTuple db cfg = Ok answer.
Proof.
  intros [t Ht]. rewrite getTuple_execute, getTuple_rows.
  destruct (configurable cfg) as [k|] eqn:Hk; [|done]. simpl in *.
  set (F := filter (λ r, matching k r.1) (table_rows (checkpoints db))).
  destruct (truthy (checkpoint_id k)) eqn:Hid.
  - destruct F as [|r F']; simpl; [by eexists|].
    rewrite Hk. simpl. rewrite Ht.
    destruct (checkpoint_id k); [by eexists|done].
  - destruct (take 1 (order_by_checkpoint_id_desc F)) as [|r L]; simpl;
      by eexists.
Qed.

(** X16. What [getTuple] returns is a checkpoint of the store, of the thread
    of the config and of its namespace, the empty one when the config has
    none; when the config names a checkpoint it is that checkpoint, and
    the tuple carries the config as it was passed. *)
Theorem getTuple_within_partition (db : Db) (cfg : RunnableConfig)
    (tup : CheckpointTuple) :
  getTuple db cfg = Ok (Some tup) →
  ∃ k t i,
    configurable cfg = Some k ∧ thread_id k = Some t ∧
    is_Some (checkpoints db !! (t, default "" (checkpoint_ns k), i)) ∧
    configurable (config tup) ≫= thread_id = Some t ∧
    default "" (configurable (config tup) ≫= checkpoint_ns)
      = default "" (checkpoint_ns k) ∧
    tuple_id tup = Some i ∧
    (truthy (checkpoint_id k) = true → checkpoint_id k = Some i ∧ config tup = cfg).
Proof.
  intros Hget.
  destruct (getTuple_Some db cfg tup Hget)
    as ([[t ns] i] & c & Hc & (Ht & Hns & Hid) & Hti & Hth & Hn & _).
  simpl in *.
  destruct (configurable cfg) as [k|] eqn:Hk; [|done]. simpl in *.
  exists k, t, i. subst ns. split_and!; try done.
  intros Htr. split; [by apply Hid|].
  rewrite getTuple_execute, getTuple_rows in Hget. rewrite Hk in Hget.
  simpl in Hget. rewrite Htr in Hget.
  destruct (filter _ _) as [|r F']; simpl in Hget; [done|].
  rewrite Hk in Hget. simpl in Hget. rewrite Ht, (Hid Htr) in Hget.
  by injection Hget as <-.
Qed.

(** ** More on [list] *)




Lemma omap_filter {A B} (f : A → option B) (P : A → Prop)
    `{∀ x, Decision (P x)} (l : list A) :
  (∀ x, ¬ P x → f x = None) → omap f (filter P l) = omap f l.
Proof.
  intros Hf. induction l as [|x l IH]; [done|].
  rewrite filter_cons. destruct (decide (P x)) as [HP|HP].
  - change (omap f (x :: ?l')) with
      (match f x with Some y => y :: omap f l' | None => omap f l' end).
    by rewrite IH.
  - change (omap f (x :: l)) with
      (match f x with Some y => y :: omap f l | None => omap f l end).
    by rewrite (Hf x HP).
Qed.

Lemma sanitizedFilter_filter (f : obj (option Value)) :
  sanitizedFilter (Some f)
  = sanitizedFilter
      (Some (filter (λ e : string * option Value,
                       is_Some e.2 ∧ e.1 ∈ validCheckpointMetadataKeys) f)).
Proof.
  unfold sanitizedFilter. simpl. symmetry. apply omap_filter.
  intros [key [v|]] Hno; simpl in *; [|done].
  case_decide; [|done]. destruct Hno. split; [by eexists|done].
Qed.

(** X18. Of the [filter] option only the entries with a defined value and
    one of the keys source, step and parents count: [list] answers as it
    does for the filter without the other entries. *)
Theorem list_filter_sanitized (db : Db) (cfg : RunnableConfig)
    (limit : option Z) (before : option RunnableConfig)
    (f : obj (option Value)) :
  list_ db cfg (Some {| opt_limit := limit; opt_before := before;
                        opt_filter := Some f |})
  = list_ db cfg
      (Some {| opt_limit := limit; opt_before := before;
               opt_filter :=
                 Some (filter (λ e : string * option Value,
                                 is_Some e.2 ∧
                                 e.1 ∈ validCheckpointMetadataKeys) f) |}).
Proof. unfold list_. simpl. by rewrite <-sanitizedFilter_filter. Qed.

Lemma key_config_inj t ns i t' ns' i' :
  key_config t ns i = key_config t' ns' i' → (t, ns, i) = (t', ns', i').
Proof. by intros [= -> -> ->]. Qed.

(** X19. Without a limit [list] yields each checkpoint of the store that
    meets the predicates of the call once, and nothing else: the thread
    and the namespace of the config, each only when the config has it,
    an id strictly below that of [before], and the metadata filter. *)
Theorem list_yields_exactly (db : Db) (cfg : RunnableConfig)
    (before : option RunnableConfig) (filter_ : option (obj (option Value)))
    (tuples : list CheckpointTuple) :
  configurable cfg ≫= thread_id ≠ Some "" →
  list_ db cfg (Some {| opt_limit := None; opt_before := before;
                        opt_filter := filter_ |}) = Ok tuples →
  NoDup (config <$> tuples) ∧
  ∀ c', c' ∈ config <$> tuples ↔
        ∃ t ns i c,
          c' = key_config t ns i ∧ checkpoints db !! (t, ns, i) = Some c ∧
          list_matching (configurable cfg ≫= thread_id)
            (configurable cfg ≫= checkpoint_ns)
            ((before ≫= configurable) ≫= checkpoint_id)
            (sanitizedFilter filter_) ((t, ns, i), c).
Proof.
  intros Hth Hlist. rewrite list_rows in Hlist by done.
  injection Hlist as <-. unfold list_limit, list_before. simpl.
  set (P := list_matching _ _ _ _).
  rewrite <-!list_fmap_compose.
  rewrite (list_fmap_ext _ (λ r : CheckpointKey * CheckpointCols,
                              key_config r.1.1.1 r.1.1.2 r.1.2) _
             (λ _ _ _, eq_refl)).
  split.
  - apply (NoDup_fmap_2_strong _).
    + intros [[[t ns] i] c] [[[t' ns'] i'] c'] Hr Hr' Heq.
      apply key_config_inj in Heq. simpl in Heq.
      rewrite order_by_checkpoint_id_desc_perm in Hr, Hr'.
      apply list_elem_of_filter in Hr as [_ Hr%elem_of_table_rows].
      apply list_elem_of_filter in Hr' as [_ Hr'%elem_of_table_rows].
      injection Heq as -> -> ->. rewrite Hr' in Hr. by injection Hr as ->.
    + rewrite order_by_checkpoint_id_desc_perm.
      apply NoDup_filter, NoDup_table_rows.
  - intros c'. rewrite list_elem_of_fmap. split.
    + intros ([[[t ns] i] c] & -> & Hr).
      rewrite order_by_checkpoint_id_desc_perm in Hr.
      apply list_elem_of_filter in Hr as [HP Hr%elem_of_table_rows].
      by exists t, ns, i, c.
    + intros (t & ns & i & c & -> & Hc & HP). exists ((t, ns, i), c).
      split; [done|]. rewrite order_by_checkpoint_id_desc_perm.
      apply list_elem_of_filter. split; [done|]. by apply elem_of_table_rows.
Qed.

(** The rows a statement returns are rows of the table. *)
Lemma execute_rows db sql args (rows : list CheckpointRow) :
  execute db sql args = Ok rows →
  ∀ row, row ∈ rows →
         ∃ key c, checkpoints db !! key = Some c ∧
                  row = checkpoint_row db (key, c).
Proof.
  unfold execute. set (F := filter _ _).
  set (L := if sel_order_desc sql then order_by_checkpoint_id_desc F else F).
  assert (HL : ∀ r, r ∈ sql_limit (sel_limit sql) L → r ∈ table_rows (checkpoints db)).
  { intros r Hr. destruct (sql_limit_take (sel_limit sql) L) as [n Hn].
    rewrite Hn in Hr. apply elem_of_take in Hr as (j & Hj%list_elem_of_lookup_2 & _).
    assert (r ∈ F) as [_ HF]%list_elem_of_filter; [|done].
    unfold L in Hj. destruct (sel_order_desc sql); [|done].
    by rewrite order_by_checkpoint_id_desc_perm in Hj. }
  intros Hex row Hrow.
  assert (row ∈ checkpoint_row db <$> sql_limit (sel_limit sql) L)
    as ([key c] & -> & Hr)%list_elem_of_fmap.
  { destruct surplus_args; [case_decide; [done|]|]; by injection Hex as <-. }
  exists key, c. split; [|done]. by apply elem_of_table_rows, HL.
Qed.

(** X20. Each tuple [list] yields is the tuple [getTuple] returns for the
    config of that tuple, when the checkpoint id is not the empty
    string. *)
Theorem list_agrees_with_getTuple (db : Db) (cfg : RunnableConfig)
    (options : option CheckpointListOptions) (tuples : list CheckpointTuple)
    (tup : CheckpointTuple) :
  list_ db cfg options = Ok tuples →
  tup ∈ tuples →
  tuple_id tup ≠ Some "" →
  getTuple db (config tup) = Ok (Some tup).
Proof.
  unfold list_. destruct (execute db _ _) as [rows|e] eqn:E; [|done].
  intros [= <-] (row & -> & Hrow)%list_elem_of_fmap Hid.
  destruct (execute_rows _ _ _ _ E row Hrow) as ([[t ns] i] & c & Hc & ->).
  unfold tuple_id in Hid. simpl in Hid.
  change (config (list_tuple db (checkpoint_row db (t, ns, i, c))))
    with (key_config t ns i).
  rewrite (getTuple_key_config db t ns i c); [done| |done].
  by intros ->.
Qed.

(** X21. The first tuple [list] yields for a partition is the tuple
    [getTuple] returns for it, its latest checkpoint; [list] yields
    nothing exactly when [getTuple] finds nothing. *)
Theorem list_head_is_latest (db : Db) (t ns : string)
    (tuples : list CheckpointTuple) :
  t ≠ "" →
  list_ db (partition_config t ns) None = Ok tuples →
  getTuple db (partition_config t ns) = Ok (head tuples).
Proof.
  intros Hne Hlist. rewrite list_rows in Hlist by (simpl; congruence).
  injection Hlist as <-. simpl.
  rewrite getTuple_execute, getTuple_rows. simpl.
  rewrite (list_filter_iff _ (list_matching (Some t) (Some ns) None [])).
  2:{ intros [[[t' ns'] i'] c]. unfold matching, list_matching. simpl.
      split.
      - intros ([= ->] & -> & _). by split_and!.
      - intros (-> & -> & _). by split_and!. }
  set (F := filter _ _).
  assert (HF : ∀ r, r ∈ order_by_checkpoint_id_desc F → r.1.1 = (t, ns)).
  { intros [[[t' ns'] i'] c]. rewrite order_by_checkpoint_id_desc_perm.
    intros [(Ht & Hn & _) _]%list_elem_of_filter. simpl in *. congruence. }
  destruct (order_by_checkpoint_id_desc F) as [|[[[t' ns'] i'] c] L]; [done|].
  specialize (HF _ (list_elem_of_here _ _)). simpl in HF.
  injection HF as -> ->. done.
Qed.

(** When a statement is executed the result is the selection, whatever
    the executor does with surplus arguments. *)
Lemma execute_Ok db sql args (rows : list CheckpointRow) :
  execute db sql args = Ok rows →
  rows = checkpoint_row db <$>
           sql_limit (sel_limit sql)
             (if sel_order_desc sql
              then order_by_checkpoint_id_desc
                     (filter (selected sql args) (table_rows (checkpoints db)))
              else filter (selected sql args) (table_rows (checkpoints db))).
Proof.
  unfold execute. destruct surplus_args; [case_decide; [done|]|];
    by intros [= <-].
Qed.

(** X22. Whatever the config and the options, the checkpoint ids of the
    tuples [list] yields never go up: across threads and namespaces too
    the order is that of the ids, the latest first. *)
Theorem list_ids_never_ascend (db : Db) (cfg : RunnableConfig)
    (options : option CheckpointListOptions) (tuples : list CheckpointTuple) :
  list_ db cfg options = Ok tuples →
  ∃ ids, tuple_id <$> tuples = Some <$> ids ∧ StronglySorted (flip cle) ids.
Proof.
  unfold list_. destruct (execute db _ _) as [rows|e] eqn:E; [|done].
  intros [= <-]. apply execute_Ok in E. simpl in E. subst rows.
  set (L := order_by_checkpoint_id_desc _).
  destruct (sql_limit_take
              (match options ≫= opt_limit with
               | Some n => if decide (n = 0) then None else Some n
               | None => None
               end) L) as [n ->].
  exists ((λ r, r.1.2) <$> take n L). split; [apply tuple_id_list_tuple|].
  assert (Hs : StronglySorted checkpoint_id_ge (take n L)).
  { apply StronglySorted_take, order_by_checkpoint_id_desc_sorted. }
  induction Hs as [|r l Hs IH Hall]; simpl; constructor; [done|].
  apply Forall_fmap. by apply (Forall_impl _ _ _ Hall).
Qed.

(** ** The saver over its database client

    The methods above are the bodies that follow [await this.setup()], on
    a database that has both tables.  Here is the object around them: the
    client, whose database may not have the tables yet and may or may not
    accept the journal mode WAL, and the flag [isSetup]. *)

Record Client := {
  wal_accepted : bool;
  journal_wal : bool;
  table_checkpoints : option (gmap (string * string * string) CheckpointCols);
  table_writes : option (gmap (string * string * string * string * Z) WriteCols)
}.

Record Saver := {
  saver_db : Client;
  isSetup : bool
}.

(** [new SqliteSaver(db)] *)
Definition new_SqliteSaver (c : Client) : Saver :=
  {| saver_db := c; isSetup := false |}.

(** [PRAGMA journal_mode=WAL] *)
Definition pragma_journal_mode_wal (c : Client) : result Client :=
  if wal_accepted c
  then Ok {| wal_accepted := wal_accepted c; journal_wal := true;
             table_checkpoints := table_checkpoints c;
             table_writes := table_writes c |}
  else Err "journal mode WAL is not supported".

(** [CREATE TABLE IF NOT EXISTS] *)
Definition create_table_if_not_exists {K V} `{Countable K}
    (t : option (gmap K V)) : option (gmap K V) :=
  match t with
  | Some rows => Some rows
  | None => Some ∅
  end.

Definition setup (s : Saver) : Saver :=
  if isSetup s then s
  else
    let c1 :=
      match pragma_journal_mode_wal (saver_db s) with
      | Ok c => c
      | Err _ => saver_db s
      end in
    let c2 :=
      {| wal_accepted := wal_accepted c1; journal_wal := journal_wal c1;
         table_checkpoints := create_table_if_not_exists (table_checkpoints c1);
         table_writes := table_writes c1 |} in
    let c3 :=
      {| wal_accepted := wal_accepted c2; journal_wal := journal_wal c2;
         table_checkpoints := table_checkpoints c2;
         table_writes := create_table_if_not_exists (table_writes c2) |} in
    {| saver_db := c3; isSetup := true |}.

(** The two tables, when the database has both. *)
Definition tables (c : Client) : option Db :=
  match table_checkpoints c, table_writes c with
  | Some cp, Some w => Some {| checkpoints := cp; writes := w |}
  | _, _ => None
  end.

Definition with_tables (s : Saver) (d : Db) : Saver :=
  {| saver_db :=
       {| wal_accepted := wal_accepted (saver_db s);
          journal_wal := journal_wal (saver_db s);
          table_checkpoints := Some (checkpoints d);
          table_writes := Some (writes d) |};
     isSetup := isSetup s |}.

(** A statement on a table the database does not have. *)
Definition no_such_table {A} : result A := Err "no such table".

Definition Saver_getTuple (s : Saver) (config : RunnableConfig)
    : Saver * result (option CheckpointTuple) :=
  let s' := setup s in
  (s', match tables (saver_db s') with
       | Some d => getTuple d config
       | None => no_such_table
       end).

Definition Saver_list (s : Saver) (config : RunnableConfig)
    (options : option CheckpointListOptions)
    : Saver * result (list CheckpointTuple) :=
  let s' := setup s in
  (s', match tables (saver_db s') with
       | Some d => list_ d config options
       | None => no_such_table
       end).

Definition Saver_put (s : Saver) (config : RunnableConfig)
    (checkpoint : Checkpoint) (metadata : CheckpointMetadata)
    : Saver * result RunnableConfig :=
  let s' := setup s in
  match tables (saver_db s') with
  | Some d =>
      match put d config checkpoint metadata with
      | Ok (d', out) => (with_tables s' d', Ok out)
      | Err e => (s', Err e)
      end
  | None => (s', no_such_table)
  end.

Definition Saver_putWrites (s : Saver) (config : RunnableConfig)
    (writes_ : list PendingWrite) (taskId : string) : Saver * result unit :=
  let s' := setup s in
  match tables (saver_db s') with
  | Some d =>
      match putWrites d config writes_ taskId with
      | Ok d' => (with_tables s' d', Ok ())
      | Err e => (s', Err e)
      end
  | None => (s', no_such_table)
  end.

(** [deleteThread] does not call [setup].  Its two statements run as one
    batch: when one of them fails nothing is deleted. *)
Definition Saver_deleteThread (s : Saver) (threadId : string)
    : Saver * result unit :=
  match tables (saver_db s) with
  | Some d => (with_tables s (deleteThread d threadId), Ok ())
  | None => (s, no_such_table)
  end.

(** The rows a database holds, a missing table having none. *)
Definition held (c : Client) : Db :=
  {| checkpoints := default ∅ (table_checkpoints c);
     writes := default ∅ (table_writes c) |}.

Lemma setup_new (c : Client) :
  isSetup (setup (new_SqliteSaver c)) = true ∧
  tables (saver_db (setup (new_SqliteSaver c))) = Some (held c) ∧
  journal_wal (saver_db (setup (new_SqliteSaver c)))
    = (wal_accepted c || journal_wal c)%bool.
Proof.
  unfold setup, new_SqliteSaver, pragma_journal_mode_wal, tables, held. simpl.
  destruct (wal_accepted c), (table_checkpoints c), (table_writes c); simpl;
    split_and!; try done; by destruct (journal_wal c).
Qed.

Lemma put_without_thread db cfg c m :
  truthy (configurable cfg ≫= thread_id) = false → ∃ e, put db cfg c m = Err e.
Proof.
  unfold put. destruct (configurable cfg) as [k|]; simpl; [|by eexists].
  destruct (thread_id k) as [t|]; simpl; [|by eexists].
  destruct (decide (t = "")); [by eexists|done].
Qed.

Lemma putWrites_without_key db cfg ws task :
  truthy (configurable cfg ≫= thread_id) = false ∨
  truthy (configurable cfg ≫= checkpoint_id) = false →
  ∃ e, putWrites db cfg ws task = Err e.
Proof.
  unfold putWrites. destruct (configurable cfg) as [k|]; simpl; [|by eexists].
  destruct (truthy (thread_id k)); [|by eexists].
  destruct (truthy (checkpoint_id k)); [|by eexists].
  by intros [?|?].
Qed.

(** X23. The first read through a new saver answers from the rows the
    database already holds, a missing table counting as empty, whether or
    not the database accepts the journal mode WAL; it leaves the saver set
    up, both tables present with exactly those rows. *)
Theorem Saver_first_read (c : Client) (cfg : RunnableConfig)
    (options : option CheckpointListOptions) :
  let s := new_SqliteSaver c in
  (Saver_getTuple s cfg).2 = getTuple (held c) cfg ∧
  (Saver_list s cfg options).2 = list_ (held c) cfg options ∧
  (Saver_getTuple s cfg).1 = (Saver_list s cfg options).1 ∧
  isSetup (Saver_getTuple s cfg).1 = true ∧
  tables (saver_db (Saver_getTuple s cfg).1) = Some (held c).
Proof.
  intros s. destruct (setup_new c) as (Hs & Ht & _). fold s in Hs, Ht.
  unfold Saver_getTuple, Saver_list. cbv zeta. cbn [fst snd].
  by rewrite Ht.
Qed.

(** X24. A [put] or a [putWrites] through a new saver that fails on its
    config has set the saver up all the same, and the rows the database
    held are as they were. *)
Theorem Saver_failed_write (c : Client) (cfg : RunnableConfig)
    (C : Checkpoint) (M : CheckpointMetadata) (ws : list PendingWrite)
    (task : string) :
  let s := new_SqliteSaver c in
  (truthy (configurable cfg ≫= thread_id) = false →
   ∃ e, Saver_put s cfg C M = (setup s, Err e)) ∧
  (truthy (configurable cfg ≫= thread_id) = false ∨
   truthy (configurable cfg ≫= checkpoint_id) = false →
   ∃ e, Saver_putWrites s cfg ws task = (setup s, Err e)) ∧
  isSetup (setup s) = true ∧
  tables (saver_db (setup s)) = Some (held c).
Proof.
  intros s. destruct (setup_new c) as (Hs & Ht & _). fold s in Hs, Ht.
  split_and!; [| |done..].
  - intros Hth. unfold Saver_put. cbv zeta. rewrite Ht.
    destruct (put_without_thread (held c) cfg C M Hth) as [e He].
    rewrite He. by exists e.
  - intros Hcfg. unfold Saver_putWrites. cbv zeta. rewrite Ht.
    destruct (putWrites_without_key (held c) cfg ws task Hcfg) as [e He].
    rewrite He. by exists e.
Qed.

Lemma tables_with_tables (s : Saver) (d : Db) :
  tables (saver_db (with_tables s d)) = Some d.
Proof. by destruct d. Qed.

Lemma setup_with_tables (s : Saver) (d : Db) :
  isSetup s = true → setup (with_tables s d) = with_tables s d.
Proof.
  intros Hs. unfold setup.
  change (isSetup (with_tables s d)) with (isSetup s). by rewrite Hs.
Qed.

(** X25. [deleteThread] does not set the saver up.  Through a new saver
    over a database without the tables it fails and changes nothing;
    after a first call of another method it succeeds, and the rows left
    are those [deleteThread] leaves of the rows the database held. *)
Theorem Saver_deleteThread_without_setup (c : Client) (cfg : RunnableConfig)
    (T : string) :
  tables c = None →
  Saver_deleteThread (new_SqliteSaver c) T = (new_SqliteSaver c, no_such_table) ∧
  (Saver_deleteThread (Saver_getTuple (new_SqliteSaver c) cfg).1 T).2 = Ok () ∧
  tables (saver_db (Saver_deleteThread
                      (Saver_getTuple (new_SqliteSaver c) cfg).1 T).1)
    = Some (deleteThread (held c) T).
Proof.
  intros Hno. destruct (setup_new c) as (Hs & Ht & _). split.
  - unfold Saver_deleteThread. simpl. by rewrite Hno.
  - unfold Saver_deleteThread, Saver_getTuple. cbv zeta. cbn [fst snd].
    rewrite Ht. cbn [fst snd]. split; [done|apply tables_with_tables].
Qed.

(** X26. Through the saver, from a new one over any database: a checkpoint
    and its metadata written by [put] are read back by [getTuple] on the
    config [put] returned, when the checkpoint id is not the empty
    string, the version is current and the serializer decodes what it
    encoded; the read leaves the saver as the write left it. *)
Theorem Saver_put_getTuple (c : Client) (s1 : Saver) (cfg out : RunnableConfig)
    (C : Checkpoint) (M : CheckpointMetadata) :
  Saver_put (new_SqliteSaver c) cfg C M = (s1, Ok out) →
  cp_id C ≠ "" →
  4 ≤ cp_v C →
  roundtrips (copyCheckpoint C) C →
  roundtrips M M →
  ∃ tup, Saver_getTuple s1 out = (s1, Ok (Some tup)) ∧
         checkpoint tup = C ∧ metadata tup = M.
Proof.
  destruct (setup_new c) as (Hs & Ht & _).
  unfold Saver_put. cbv zeta. rewrite Ht.
  destruct (put (held c) cfg C M) as [[d' o]|e] eqn:Hput; [|done].
  intros [= <- <-] Hid Hv HC HM.
  apply put_Ok in Hput as (k & t & Hk & Hth & _ & Hty & -> & ->).
  unfold Saver_getTuple. cbv zeta.
  rewrite setup_with_tables by done.
  rewrite tables_with_tables.
  eexists. split.
  - f_equal. apply getTuple_key_config; [done|]. simpl. apply lookup_insert_eq.
  - unfold roundtrips in *. simpl in *. split.
    + unfold decode_checkpoint. simpl. rewrite HC.
      destruct (checkpoint_id k); [|done]. by rewrite decide_False by lia.
    + unfold decode_metadata. simpl. by rewrite Hty.
Qed.

End SqliteSaver.

(** ** A reference instance

    To run the model on concrete data the parameters are instantiated: an
    S-expression serializer stands in for the serializer of the checkpoint
    library, and [TASKS], [copyCheckpoint], [maxChannelVersion] and
    [getNextVersion] follow the library. *)

Module Reference.
Import Ceres.

Fixpoint value_to_sexp (x : Value) : sexp :=
  match x with
  | VNull => Atom (Raw "null")
  | VBool b => to_sexp b
  | VNum n => to_sexp n
  | VStr s => to_sexp s
  | VArr l => List (Atom (Raw "array") :: map value_to_sexp l)
  | VObj o =>
      List (Atom (Raw "object") ::
            map (λ '(k, y), List [to_sexp k; value_to_sexp y]) o)
  end.

Fixpoint sexp_to_value (e : sexp) : Value :=
  match e with
  | Atom_ (Num n) => VNum n
  | Atom_ (Str s) => VStr s
  | Atom_ (Raw s) =>
      if decide (s = "true") then VBool true
      else if decide (s = "false") then VBool false
      else VNull
  | List [] => VNull
  | List (Atom_ (Raw tag) :: es) =>
      if decide (tag = "object")
      then VObj (map (λ e', match e' with
                            | List [Atom_ (Str k); y] => (k, sexp_to_value y)
                            | _ => ("", VNull)
                            end) es)
      else VArr (map sexp_to_value es)
  | List (_ :: es) => VArr (map sexp_to_value es)
  end.

Global Instance Serialize_Value : Serialize Value := value_to_sexp.
Global Instance Deserialize_Value : Deserialize Value :=
  λ _ e, inr (sexp_to_value e).

Global Instance Serialize_ChannelVersion : Serialize ChannelVersion :=
  λ x, match x with VerNum n => to_sexp n | VerStr s => to_sexp s end.
Global Instance Deserialize_ChannelVersion : Deserialize ChannelVersion :=
  λ _ e, match e with
         | Atom_ (Num n) => inr (VerNum n)
         | Atom_ (Str s) => inr (VerStr s)
         | _ => inr (VerNum 0)
         end.

Definition checkpoint_fields (c : Checkpoint) :=
  (cp_v c, cp_id c, cp_ts c,
   (channel_values c : list (string * Value)),
   (channel_versions c : list (string * ChannelVersion)),
   (versions_seen c : list (string * list (string * ChannelVersion)))).

Definition metadata_fields (m : CheckpointMetadata) :=
  (md_source m, md_step m, (md_parents m : list (string * string))).

Definition dumps {A} `{Serialize A} (x : A) : string * bytes :=
  ("sexp", String.list_byte_of_string (to_string x)).

Definition loads {A} `{Deserialize A} (d : A) (text : option string) : A :=
  match from_string (default "" text) with
  | inr x => x
  | inl _ => d
  end.

Definition no_checkpoint : Checkpoint :=
  {| cp_v := 0; cp_id := ""; cp_ts := ""; channel_values := [];
     channel_versions := []; versions_seen := [] |}.

Global Instance serde_Value : SerializerProtocol Value :=
  {| dumpsTyped := dumps; loadsTyped := λ _, loads VNull |}.

Global Instance serde_Checkpoint : SerializerProtocol Checkpoint :=
  {| dumpsTyped := λ c, dumps (checkpoint_fields c);
     loadsTyped := λ _ text,
       let '(v, i, ts, values, versions, seen) :=
         loads (checkpoint_fields no_checkpoint) text in
       {| cp_v := v; cp_id := i; cp_ts := ts; channel_values := values;
          channel_versions := versions; versions_seen := seen |} |}.

Global Instance serde_CheckpointMetadata : SerializerProtocol CheckpointMetadata :=
  {| dumpsTyped := λ m, dumps (metadata_fields m);
     loadsTyped := λ _ text,
       let '(source, step, parents) := loads ("", 0, []) text in
       {| md_source := source; md_step := step; md_parents := parents |} |}.

Definition TASKS : string := "__pregel_tasks".

Definition copyCheckpoint (c : Checkpoint) : Checkpoint :=
  {| cp_v := cp_v c; cp_id := cp_id c; cp_ts := cp_ts c;
     channel_values := channel_values c;
     channel_versions := channel_versions c;
     versions_seen := versions_seen c |}.

(** Numbers compare as numbers, strings as strings, a number is below a
    string. *)
Definition compareChannelVersions (a b : ChannelVersion) : comparison :=
  match a, b with
  | VerNum m, VerNum n => Z.compare m n
  | VerStr s, VerStr s' => String.compare s s'
  | VerNum _, VerStr _ => Lt
  | VerStr _, VerNum _ => Gt
  end.

Definition maxChannelVersion (versions : list ChannelVersion) : ChannelVersion :=
  match versions with
  | [] => VerNum 0
  | x :: l =>
      foldl (λ max version,
               match compareChannelVersions max version with
               | Lt => version
               | _ => max
               end) x l
  end.

Definition getNextVersion (current : option ChannelVersion) : ChannelVersion :=
  match current with
  | Some (VerNum n) => VerNum (n + 1)
  | _ => VerNum 1
  end.

Definition JSON_stringify (x : Value) : string := to_string x.

Definition metadata_field_eq (col : SqlValue) (key arg : string) : bool :=
  let m : CheckpointMetadata := loadsTyped None (Some (blobToString col)) in
  if decide (key = "source") then bool_decide (to_string (md_source m) = arg)
  else if decide (key = "step") then bool_decide (to_string (md_step m) = arg)
  else if decide (key = "parents") then bool_decide (to_string (md_parents m) = arg)
  else false.

Definition ref_getTuple (surplus : SurplusArgs) (db : Db) (cfg : RunnableConfig)
    : result (option CheckpointTuple) :=
  getTuple TASKS maxChannelVersion getNextVersion metadata_field_eq surplus db cfg.

Definition ref_list (surplus : SurplusArgs) (db : Db) (cfg : RunnableConfig)
    (options : option CheckpointListOptions) : result (list CheckpointTuple) :=
  list_ TASKS maxChannelVersion getNextVersion JSON_stringify metadata_field_eq
    surplus db cfg options.

Definition ref_put (db : Db) (cfg : RunnableConfig) (c : Checkpoint)
    (m : CheckpointMetadata) : result (Db * RunnableConfig) :=
  put copyCheckpoint db cfg c m.

Definition ref_putWrites (db : Db) (cfg : RunnableConfig)
    (ws : list PendingWrite) (task : string) : result Db :=
  putWrites db cfg ws task.

(** The store after a successful [put]. *)
Definition stored (r : result (Db * RunnableConfig)) : Db :=
  match r with Ok (db, _) => db | Err _ => empty_db end.

Definition written (r : result Db) : Db :=
  match r with Ok db => db | Err _ => empty_db end.

Definition thread_config (t : string) : RunnableConfig :=
  {| configurable := Some
       {| thread_id := Some t; checkpoint_ns := None; checkpoint_id := None |} |}.

Definition bare_checkpoint (v : Z) (i : string) : Checkpoint :=
  {| cp_v := v; cp_id := i; cp_ts := "2024-01-01T00:00:00Z";
     channel_values := []; channel_versions := []; versions_seen := [] |}.

Definition input_metadata : CheckpointMetadata :=
  {| md_source := "input"; md_step := 0; md_parents := [] |}.

End Reference.

(** ** The theorems on concrete stores *)

Abbreviation R_getTuple := (Reference.ref_getTuple SurplusRejected).

(** A store with one current checkpoint, id [a], in the partition of
    thread [t] and the empty namespace. *)
Definition db_a : Db :=
  Reference.stored
    (Reference.ref_put empty_db (Reference.thread_config "t")
       (Reference.bare_checkpoint 4 "a") Reference.input_metadata).

(** The same store after a checkpoint with the empty id is put. *)
Definition db_a_empty : Db :=
  Reference.stored
    (Reference.ref_put db_a (Reference.thread_config "t")
       (Reference.bare_checkpoint 4 "") Reference.input_metadata).

(** C1 fails as stated: the checkpoint with the empty id is stored, the
    serializer decodes what it encoded, and [getTuple] on the config
    [put] returned reads the checkpoint [a].  The empty id counts as no
    id, so the latest checkpoint of the partition is the answer. *)
Lemma put_getTuple_empty_id :
  Reference.ref_put db_a (Reference.thread_config "t")
    (Reference.bare_checkpoint 4 "") Reference.input_metadata
    = Ok (db_a_empty, key_config "t" "" "") ∧
  4 ≤ cp_v (Reference.bare_checkpoint 4 "") ∧
  roundtrips (Reference.copyCheckpoint (Reference.bare_checkpoint 4 ""))
    (Reference.bare_checkpoint 4 "") ∧
  roundtrips Reference.input_metadata Reference.input_metadata ∧
  ∃ tup,
    Reference.ref_getTuple SurplusRejected db_a_empty (key_config "t" "" "")
      = Ok (Some tup) ∧
    checkpoint tup = Reference.bare_checkpoint 4 "a" ∧
    checkpoint tup ≠ Reference.bare_checkpoint 4 "".
Proof.
  split_and!; [reflexivity|done|by vm_compute|by vm_compute|].
  eexists. split_and!; [by vm_compute|by vm_compute|].
  vm_compute. discriminate.
Qed.

Lemma put_getTuple_roundtrip_witness :
  ∃ tup,
    Reference.ref_getTuple SurplusRejected db_a (key_config "t" "" "a")
      = Ok (Some tup) ∧
    checkpoint tup = Reference.bare_checkpoint 4 "a" ∧
    metadata tup = Reference.input_metadata.
Proof.
  apply (put_getTuple_roundtrip Reference.TASKS Reference.copyCheckpoint
           Reference.maxChannelVersion Reference.getNextVersion
           Reference.metadata_field_eq SurplusRejected
           empty_db db_a (Reference.thread_config "t")
           (key_config "t" "" "a")
           (Reference.bare_checkpoint 4 "a") Reference.input_metadata).
  - reflexivity.
  - done.
  - done.
  - by vm_compute.
  - by vm_compute.
Defined.

(** A second checkpoint object with the id [a]. *)
Definition checkpoint_a' : Checkpoint :=
  {| cp_v := 4; cp_id := "a"; cp_ts := "2024-01-02T00:00:00Z";
     channel_values := [("x", VNum 1)]; channel_versions := [("x", VerNum 1)];
     versions_seen := [] |}.

Definition loop_metadata : CheckpointMetadata :=
  {| md_source := "loop"; md_step := 1; md_parents := [] |}.

Definition db_a' : Db :=
  Reference.stored
    (Reference.ref_put db_a (Reference.thread_config "t")
       checkpoint_a' loop_metadata).

Lemma put_twice_one_row_witness :
  ∃ k2 t ns,
    configurable (Reference.thread_config "t") = Some k2 ∧
    key_config "t" "" "a" = key_config t ns (cp_id checkpoint_a') ∧
    filter (λ r, r.1 = (t, ns, cp_id checkpoint_a')) (table_rows (checkpoints db_a'))
      = [((t, ns, cp_id checkpoint_a'),
          put_row Reference.copyCheckpoint k2 checkpoint_a' loop_metadata)].
Proof.
  apply (put_twice_one_row Reference.copyCheckpoint empty_db db_a db_a'
           (Reference.thread_config "t") (Reference.thread_config "t")
           (key_config "t" "" "a")
           (Reference.bare_checkpoint 4 "a") checkpoint_a'
           Reference.input_metadata loop_metadata).
  - reflexivity.
  - reflexivity.
Defined.

(** [put] from a config positioned on checkpoint [a]. *)
Definition db_ab : Db :=
  Reference.stored
    (Reference.ref_put db_a (key_config "t" "" "a")
       (Reference.bare_checkpoint 4 "b") loop_metadata).

Lemma put_parent_from_config_witness :
  ∃ k t,
    configurable (key_config "t" "" "a") = Some k ∧ thread_id k = Some t ∧
    c_parent_checkpoint_id <$>
      checkpoints db_ab !! (t, default "" (checkpoint_ns k),
                            cp_id (Reference.bare_checkpoint 4 "b"))
    = Some (checkpoint_id k).
Proof.
  apply (put_parent_from_config Reference.copyCheckpoint db_a db_ab
           (key_config "t" "" "a") (key_config "t" "" "b")
           (Reference.bare_checkpoint 4 "b") loop_metadata).
  reflexivity.
Defined.

Lemma getTuple_latest_or_absent_witness :
  R_getTuple empty_db (Reference.thread_config "t") = Ok None ∧
  ∃ tup j cj,
    R_getTuple db_ab (Reference.thread_config "t") = Ok (Some tup) ∧
    checkpoints db_ab !! ("t", "", j) = Some cj ∧
    (∀ i' c', checkpoints db_ab !! ("t", "", i') = Some c' → cle i' j) ∧
    config tup = key_config "t" "" j ∧
    checkpoint tup =
      decode_checkpoint Reference.TASKS Reference.maxChannelVersion
        Reference.getNextVersion db_ab
        (checkpoint_row Reference.TASKS db_ab (("t", "", j), cj)) ∧
    metadata tup =
      decode_metadata (checkpoint_row Reference.TASKS db_ab (("t", "", j), cj)).
Proof.
  split.
  - apply (getTuple_latest_or_absent Reference.TASKS Reference.maxChannelVersion
             Reference.getNextVersion Reference.metadata_field_eq
             SurplusRejected empty_db (Reference.thread_config "t")).
    { by eexists. }
    intros key c Hc. unfold empty_db in Hc. simpl in Hc.
    by rewrite lookup_empty in Hc.
  - apply (proj2 (getTuple_latest_or_absent Reference.TASKS
             Reference.maxChannelVersion Reference.getNextVersion
             Reference.metadata_field_eq SurplusRejected db_ab
             (Reference.thread_config "t")) "t" "a"
             (put_row Reference.copyCheckpoint
                (default no_configurable (configurable (Reference.thread_config "t")))
                (Reference.bare_checkpoint 4 "a") Reference.input_metadata)).
    + done.
    + done.
    + by vm_compute.
Defined.

(** Two writes of task [t1] recorded against checkpoint [a]. *)
Definition two_writes : list PendingWrite :=
  [("chanA", VStr "v1"); ("chanB", VNum 2)].

Definition db_a_writes : Db :=
  Reference.written
    (Reference.ref_putWrites db_a (key_config "t" "" "a") two_writes "t1").

Lemma getTuple_pendingWrites_order_witness :
  ∃ tup,
    R_getTuple db_a_writes (key_config "t" "" "a") = Ok (Some tup) ∧
    filter (λ e : string * string * Value, e.1.1 = "t1") (pendingWrites tup)
      = [("t1", "chanA", VStr "v1"); ("t1", "chanB", VNum 2)] ∧
    ∃ rows, pendingWrites tup = decode_write <$> rows ∧
            StronglySorted task_idx_lt rows.
Proof.
  destruct (proj2 (getTuple_pendingWrites_order Reference.TASKS
              Reference.maxChannelVersion Reference.getNextVersion
              Reference.metadata_field_eq SurplusRejected)
              db_a db_a_writes (key_config "t" "" "a")
              {| thread_id := Some "t"; checkpoint_ns := Some "";
                 checkpoint_id := Some "a" |}
              "t" "a"
              (put_row Reference.copyCheckpoint
                 {| thread_id := Some "t"; checkpoint_ns := None;
                    checkpoint_id := None |}
                 (Reference.bare_checkpoint 4 "a") Reference.input_metadata)
              two_writes "t1")
    as (tup & Hget & Hf).
  - done.
  - done.
  - done.
  - by vm_compute.
  - reflexivity.
  - repeat constructor; by vm_compute.
  - exists tup. split; [exact Hget|]. split; [rewrite Hf; vm_compute; reflexivity|].
    destruct (proj1 (getTuple_pendingWrites_order Reference.TASKS
                Reference.maxChannelVersion Reference.getNextVersion
                Reference.metadata_field_eq SurplusRejected) _ _ _ Hget)
      as (t & ns & i & rows & _ & _ & _ & Hpw & _ & Hs).
    exists rows. exact (conj Hpw Hs).
Defined.

(** Three checkpoints of one partition, with the ids of the ordering
    example. *)
Definition db_three : Db :=
  Reference.stored
    (Reference.ref_put
       (Reference.stored
          (Reference.ref_put
             (Reference.stored
                (Reference.ref_put empty_db (Reference.thread_config "t")
                   (Reference.bare_checkpoint 4 "2024-01-02T00:00:00")
                   Reference.input_metadata))
             (Reference.thread_config "t")
             (Reference.bare_checkpoint 4 "2024-01-03T00:00:00") loop_metadata))
       (Reference.thread_config "t")
       (Reference.bare_checkpoint 4 "2024-01-01T00:00:00") loop_metadata).

Definition listed (r : result (list CheckpointTuple)) : list CheckpointTuple :=
  match r with Ok tuples => tuples | Err _ => [] end.

Lemma list_descending_before_witness :
  (∃ ids,
     tuple_id <$> listed (Reference.ref_list SurplusRejected db_three
                            (partition_config "t" "") None)
       = Some <$> ids ∧
     StronglySorted (flip clt) ids ∧
     Forall (λ i, is_Some (checkpoints db_three !! ("t", "", i)) ∧
                  opt_holds (clt i) (list_before None)) ids) ∧
  (∃ tuples,
     Reference.ref_list SurplusRejected db_three (partition_config "t" "")
       (before_only (key_config "t" "" "2024-01-03T00:00:00")) = Ok tuples ∧
     tuple_id <$> tuples
       = [Some "2024-01-02T00:00:00"; Some "2024-01-01T00:00:00"]).
Proof.
  split.
  - apply (proj1 (list_descending_before Reference.TASKS
             Reference.maxChannelVersion Reference.getNextVersion
             Reference.JSON_stringify Reference.metadata_field_eq
             SurplusRejected)
             db_three (partition_config "t" "") None _ "t" "").
    + done.
    + done.
    + done.
    + reflexivity.
  - apply (proj2 (list_descending_before Reference.TASKS
             Reference.maxChannelVersion Reference.getNextVersion
             Reference.JSON_stringify Reference.metadata_field_eq
             SurplusRejected) db_three "t" "").
    + done.
    + intros i. rewrite is_Some_lookup_table_rows.
      assert ((table_rows (checkpoints db_three)).*1
              = [ ("t", "", "2024-01-01T00:00:00");
                  ("t", "", "2024-01-02T00:00:00");
                  ("t", "", "2024-01-03T00:00:00") ]) as ->
        by (by vm_compute).
      rewrite !elem_of_cons, !elem_of_nil. split.
      * intros [[= ->]|[[= ->]|[[= ->]|[]]]]; auto.
      * intros [->|[->|[->|[]]]]; auto.
Defined.

(** *** The migration and [list] at inputs where they leave the claims *)

Definition returned_checkpoint (r : result (option CheckpointTuple))
    : option Checkpoint :=
  match r with Ok (Some tup) => Some (checkpoint tup) | _ => None end.

(** A checkpoint of version 3 with the id [c], put from a config
    positioned on [p]: a legacy checkpoint with the parent [p], in the
    empty namespace of thread [t].  The store has no row in [writes]. *)
Definition db_legacy : Db :=
  Reference.stored
    (Reference.ref_put empty_db (key_config "t" "" "p")
       (Reference.bare_checkpoint 3 "c") Reference.input_metadata).

(** One send recorded under the parent id [p] in another namespace of the
    thread. *)
Definition db_stray_send : Db :=
  Reference.written
    (Reference.ref_putWrites db_legacy (key_config "t" "other" "p")
       [(Reference.TASKS, VStr "stray")] "task").

(** C3 at a failing input. The only send of the store is recorded in the
    namespace [other]; the subquery [pending_sends] of the row of [c],
    which names the namespace, is empty, and the migration of [c], in
    the empty namespace, consumes the send all the same. *)
Theorem migration_consumes_other_namespace :
  table_rows (writes db_stray_send)
    = [ (("t", "other", "p", "task", 0),
         {| w_channel := Reference.TASKS; w_type := Some "sexp";
            w_value := SqlBlob (dumpsTyped (VStr "stray")).2 |}) ] ∧
  select_pending_sends Reference.TASKS db_stray_send "t" "" (Some "p") = [] ∧
  returned_checkpoint (R_getTuple db_stray_send (key_config "t" "" "c"))
    = Some {| cp_v := 3; cp_id := "c"; cp_ts := "2024-01-01T00:00:00Z";
              channel_values := [(Reference.TASKS, VArr [VStr "stray"])];
              channel_versions := [(Reference.TASKS, VerNum 1)];
              versions_seen := [] |}.
Proof. split_and!; by vm_compute. Qed.

(** Two tasks with a send under the parent [p]: task [a] at index 1,
    after a write to another channel, and task [b] at index 0. *)
Definition db_two_tasks : Db :=
  Reference.written
    (Reference.ref_putWrites
       (Reference.written
          (Reference.ref_putWrites db_legacy (key_config "t" "" "p")
             [("chan", VNum 1); (Reference.TASKS, VStr "a1")] "a"))
       (key_config "t" "" "p") [(Reference.TASKS, VStr "b0")] "b").

(** The sends are consumed in the order of the key, task id before index:
    the send at index 1 comes before the send at index 0. *)
Lemma migration_sends_in_key_order :
  returned_checkpoint (R_getTuple db_two_tasks (key_config "t" "" "c"))
    = Some {| cp_v := 3; cp_id := "c"; cp_ts := "2024-01-01T00:00:00Z";
              channel_values :=
                [(Reference.TASKS, VArr [VStr "a1"; VStr "b0"])];
              channel_versions := [(Reference.TASKS, VerNum 1)];
              versions_seen := [] |}.
Proof. by vm_compute. Qed.

(** C4 at a failing input. The store has no row in [writes] at all, and
    the legacy checkpoint [c] comes back with a TASKS entry in
    channel_values and in channel_versions that the stored checkpoint
    does not have. *)
Theorem migration_changes_without_sends :
  table_rows (writes db_legacy) = [] ∧
  roundtrips (Reference.copyCheckpoint (Reference.bare_checkpoint 3 "c"))
    (Reference.bare_checkpoint 3 "c") ∧
  returned_checkpoint (R_getTuple db_legacy (key_config "t" "" "c"))
    = Some {| cp_v := 3; cp_id := "c"; cp_ts := "2024-01-01T00:00:00Z";
              channel_values := [(Reference.TASKS, VArr [])];
              channel_versions := [(Reference.TASKS, VerNum 1)];
              versions_seen := [] |}.
Proof. split_and!; by vm_compute. Qed.

(** A store with one checkpoint, in the namespace [x] of thread [t1]. *)
Definition db_x : Db :=
  Reference.stored
    (Reference.ref_put empty_db
       {| configurable := Some
            {| thread_id := Some "t1"; checkpoint_ns := Some "x";
               checkpoint_id := None |} |}
       (Reference.bare_checkpoint 4 "a") Reference.input_metadata).

Definition namespace_config (thread : option string) (ns : string)
    : RunnableConfig :=
  {| configurable := Some
       {| thread_id := thread; checkpoint_ns := Some ns;
          checkpoint_id := None |} |}.

(** C9 at a failing input. With the thread id absent [list] yields the
    checkpoint of thread [t1].  With the empty thread id the clause has no
    thread predicate either, and the empty string stays among the
    arguments: an executor that refuses surplus arguments fails, one that
    ignores them compares the namespace with the empty string and yields
    nothing. *)
Theorem list_empty_thread_id :
  config <$> listed (Reference.ref_list SurplusRejected db_x
                       (namespace_config None "x") None)
    = [key_config "t1" "x" "a"] ∧
  Reference.ref_list SurplusRejected db_x (namespace_config (Some "") "x") None
    = Err "too many arguments for the statement" ∧
  Reference.ref_list SurplusIgnored db_x (namespace_config (Some "") "x") None
    = Ok [].
Proof. split_and!; by vm_compute. Qed.

(** ** The further properties on concrete stores *)

Abbreviation R_list := (Reference.ref_list SurplusRejected).

(** The store [db_a] with a checkpoint of another thread, [u]. *)
Definition db_a_u : Db :=
  Reference.stored
    (Reference.ref_put db_a (Reference.thread_config "u")
       (Reference.bare_checkpoint 4 "z") Reference.input_metadata).

Lemma reads_depend_on_thread_witness :
  R_getTuple db_a (Reference.thread_config "t")
    = R_getTuple db_a_u (Reference.thread_config "t") ∧
  R_list db_a (Reference.thread_config "t") None
    = R_list db_a_u (Reference.thread_config "t") None.
Proof.
  destruct (reads_depend_on_thread Reference.TASKS Reference.maxChannelVersion
              Reference.getNextVersion Reference.JSON_stringify
              Reference.metadata_field_eq SurplusRejected
              db_a db_a_u (Reference.thread_config "t") None "t")
    as [Hget Hlist].
  - reflexivity.
  - vm_compute. reflexivity.
  - split; [exact Hget|]. apply Hlist. discriminate.
Defined.

Lemma deleteThread_erases_witness :
  thread_rows "t" (deleteThread db_ab "t") = ([], []) ∧
  R_getTuple (deleteThread db_ab "t") (key_config "t" "" "a") = Ok None ∧
  R_list (deleteThread db_ab "t") (key_config "t" "" "a") None = Ok [].
Proof.
  destruct (deleteThread_erases Reference.TASKS Reference.maxChannelVersion
              Reference.getNextVersion Reference.JSON_stringify
              Reference.metadata_field_eq SurplusRejected
              db_ab "t" (key_config "t" "" "a") None)
    as (Hrows & Hget & Hlist).
  - reflexivity.
  - split; [exact Hrows|]. split; [exact Hget|]. apply Hlist. discriminate.
Defined.

Lemma deleteThread_keeps_other_threads_witness :
  thread_rows "t" (deleteThread db_a_u "u") = thread_rows "t" db_a_u ∧
  R_getTuple (deleteThread db_a_u "u") (Reference.thread_config "t")
    = R_getTuple db_a_u (Reference.thread_config "t") ∧
  R_list (deleteThread db_a_u "u") (Reference.thread_config "t") None
    = R_list db_a_u (Reference.thread_config "t") None.
Proof.
  destruct (deleteThread_keeps_other_threads Reference.TASKS
              Reference.maxChannelVersion Reference.getNextVersion
              Reference.JSON_stringify Reference.metadata_field_eq
              SurplusRejected
              db_a_u "u" "t" (Reference.thread_config "t") None)
    as (Hrows & Hget & Hlist).
  - reflexivity.
  - discriminate.
  - split; [exact Hrows|]. split; [exact Hget|]. apply Hlist. discriminate.
Defined.

Lemma deleteThread_absent_witness : deleteThread db_ab "u" = db_ab.
Proof.
  apply (deleteThread_absent db_ab "u"). vm_compute. reflexivity.
Defined.

(** A config without [configurable]. *)
Definition empty_config : RunnableConfig := {| configurable := None |}.

Lemma put_fails_iff_witness :
  ∃ e, Reference.ref_put db_a empty_config (Reference.bare_checkpoint 4 "b")
         Reference.input_metadata = Err e.
Proof.
  apply (put_fails_iff Reference.copyCheckpoint db_a empty_config
           (Reference.bare_checkpoint 4 "b") Reference.input_metadata).
  left. reflexivity.
Defined.

Lemma put_retry_witness :
  Reference.ref_put db_a (Reference.thread_config "t")
    (Reference.bare_checkpoint 4 "a") Reference.input_metadata
  = Ok (db_a, key_config "t" "" "a").
Proof.
  apply (put_retry Reference.copyCheckpoint empty_db db_a
           (Reference.thread_config "t") (key_config "t" "" "a")
           (Reference.bare_checkpoint 4 "a") Reference.input_metadata).
  reflexivity.
Defined.

Lemma put_keeps_other_checkpoints_witness :
  writes db_ab = writes db_a ∧
  R_getTuple db_ab (key_config "t" "" "a") = R_getTuple db_a (key_config "t" "" "a").
Proof.
  destruct (put_keeps_other_checkpoints Reference.TASKS Reference.copyCheckpoint
              Reference.maxChannelVersion Reference.getNextVersion
              Reference.metadata_field_eq SurplusRejected
              db_a db_ab (key_config "t" "" "a")
              (Reference.bare_checkpoint 4 "b") loop_metadata "t" "" "b")
    as [Hw Hget].
  - reflexivity.
  - split; [exact Hw|]. apply Hget.
    intros (_ & _ & Hid). specialize (Hid eq_refl). discriminate Hid.
Defined.

Lemma put_greatest_is_latest_witness :
  ∃ tup, R_getTuple db_ab (partition_config "t" "") = Ok (Some tup) ∧
         config tup = key_config "t" "" "b" ∧
         checkpoint tup = Reference.bare_checkpoint 4 "b" ∧
         metadata tup = loop_metadata.
Proof.
  apply (put_greatest_is_latest Reference.TASKS Reference.copyCheckpoint
           Reference.maxChannelVersion Reference.getNextVersion
           Reference.metadata_field_eq SurplusRejected
           db_a db_ab (key_config "t" "" "a")
           (Reference.bare_checkpoint 4 "b") loop_metadata "t" "").
  - reflexivity.
  - intros i c Hc.
    assert (("t", "", i) ∈ (table_rows (checkpoints db_a)).*1) as Hi.
    { apply is_Some_lookup_table_rows. exists c. exact Hc. }
    assert ((table_rows (checkpoints db_a)).*1 = [("t", "", "a")]) as Hrows
      by (vm_compute; reflexivity).
    clear Hc. rewrite Hrows in Hi. apply list_elem_of_singleton in Hi.
    injection Hi as ->. reflexivity.
  - vm_compute. discriminate.
  - vm_compute. reflexivity.
  - vm_compute. reflexivity.
Defined.

Lemma put_getTuple_parentConfig_witness :
  ∃ tup, R_getTuple db_ab (key_config "t" "" "b") = Ok (Some tup) ∧
         config tup = key_config "t" "" "b" ∧
         parentConfig tup = Some (key_config "t" "" "a").
Proof.
  destruct (put_getTuple_parentConfig Reference.TASKS Reference.copyCheckpoint
              Reference.maxChannelVersion Reference.getNextVersion
              Reference.metadata_field_eq SurplusRejected
              db_a db_ab (key_config "t" "" "a") (key_config "t" "" "b")
              (Reference.bare_checkpoint 4 "b") loop_metadata)
    as (tup & k & Hk & Hget & Hcfg & Hparent).
  - reflexivity.
  - discriminate.
  - exists tup. split; [exact Hget|]. split; [exact Hcfg|].
    injection Hk as <-. exact Hparent.
Defined.

Lemma put_getTuple_any_version_witness :
  ∃ tup,
    R_getTuple db_legacy (key_config "t" "" "c") = Ok (Some tup) ∧
    cp_v (checkpoint tup) = 3 ∧ cp_id (checkpoint tup) = "c" ∧
    cp_ts (checkpoint tup) = "2024-01-01T00:00:00Z" ∧
    versions_seen (checkpoint tup) = [] ∧
    obj_get "x" (channel_values (checkpoint tup)) = None ∧
    obj_get "x" (channel_versions (checkpoint tup)) = None.
Proof.
  destruct (put_getTuple_any_version Reference.TASKS Reference.copyCheckpoint
              Reference.maxChannelVersion Reference.getNextVersion
              Reference.metadata_field_eq SurplusRejected
              empty_db db_legacy (key_config "t" "" "p") (key_config "t" "" "c")
              (Reference.bare_checkpoint 3 "c") Reference.input_metadata)
    as (tup & Hget & Hv & Hid & Hts & Hseen & Hch & _).
  - reflexivity.
  - discriminate.
  - vm_compute. reflexivity.
  - exists tup. split; [exact Hget|].
    split; [exact Hv|]. split; [exact Hid|]. split; [exact Hts|].
    split; [exact Hseen|]. apply (Hch "x"). discriminate.
Defined.

Lemma putWrites_fails_iff_witness :
  ∃ e, Reference.ref_putWrites db_a (Reference.thread_config "t")
         two_writes "t1" = Err e.
Proof.
  apply (putWrites_fails_iff db_a (Reference.thread_config "t") two_writes "t1").
  right. reflexivity.
Defined.

Lemma putWrites_rows_witness :
  ∃ k t i,
    configurable (key_config "t" "" "a") = Some k ∧
    thread_id k = Some t ∧ checkpoint_id k = Some i ∧
    checkpoints db_a_writes = checkpoints db_a ∧
    (∀ j w, two_writes !! j = Some w →
       writes db_a_writes !! (t, default "" (checkpoint_ns k), i, "t1", Z.of_nat j)
       = Some {| w_channel := w.1; w_type := Some (dumpsTyped w.2).1;
                 w_value := SqlBlob (dumpsTyped w.2).2 |}) ∧
    (∀ key : WriteKey,
       (∀ j, (j < length two_writes)%nat →
             key ≠ (t, default "" (checkpoint_ns k), i, "t1", Z.of_nat j)) →
       writes db_a_writes !! key = writes db_a !! key).
Proof.
  apply (putWrites_rows db_a db_a_writes (key_config "t" "" "a") two_writes "t1").
  reflexivity.
Defined.

Lemma putWrites_retry_witness :
  Reference.ref_putWrites db_a_writes (key_config "t" "" "a") two_writes "t1"
  = Ok db_a_writes.
Proof.
  apply (putWrites_retry db_a db_a_writes (key_config "t" "" "a")
           two_writes "t1").
  reflexivity.
Defined.

(** The two writes recorded first, the checkpoint [a] stored after them. *)
Definition db_writes_first : Db :=
  Reference.written
    (Reference.ref_putWrites empty_db (key_config "t" "" "a") two_writes "t1").

Definition db_writes_then_a : Db :=
  Reference.stored
    (Reference.ref_put db_writes_first (Reference.thread_config "t")
       (Reference.bare_checkpoint 4 "a") Reference.input_metadata).

Lemma putWrites_before_put_witness :
  ∃ tup,
    R_getTuple db_writes_then_a (key_config "t" "" "a") = Ok (Some tup) ∧
    filter (λ e : string * string * Value, e.1.1 = "t1") (pendingWrites tup)
      = [("t1", "chanA", VStr "v1"); ("t1", "chanB", VNum 2)].
Proof.
  destruct (putWrites_before_put Reference.TASKS Reference.copyCheckpoint
              Reference.maxChannelVersion Reference.getNextVersion
              Reference.metadata_field_eq SurplusRejected
              empty_db db_writes_first db_writes_then_a
              (Reference.thread_config "t") two_writes "t1" "t" "" "a"
              (Reference.bare_checkpoint 4 "a") Reference.input_metadata)
    as (tup & Hget & Hf).
  - reflexivity.
  - reflexivity.
  - repeat constructor; vm_compute; reflexivity.
  - exists tup. split; [exact Hget|]. rewrite Hf. vm_compute. reflexivity.
Defined.

Lemma getTuple_answers_witness :
  ∃ answer, R_getTuple db_ab (key_config "t" "" "missing") = Ok answer.
Proof.
  apply (getTuple_answers Reference.TASKS Reference.maxChannelVersion
           Reference.getNextVersion Reference.metadata_field_eq SurplusRejected
           db_ab (key_config "t" "" "missing")).
  exists "t". reflexivity.
Defined.

Definition no_tuple : CheckpointTuple :=
  {| config := empty_config; checkpoint := Reference.no_checkpoint;
     metadata := Reference.input_metadata; parentConfig := None;
     pendingWrites := [] |}.

Definition returned_tuple (r : result (option CheckpointTuple)) : CheckpointTuple :=
  match r with Ok (Some tup) => tup | _ => no_tuple end.

Lemma getTuple_within_partition_witness :
  ∃ k t i,
    configurable (Reference.thread_config "t") = Some k ∧ thread_id k = Some t ∧
    is_Some (checkpoints db_ab !! (t, default "" (checkpoint_ns k), i)) ∧
    configurable
      (config (returned_tuple (R_getTuple db_ab (Reference.thread_config "t"))))
      ≫= thread_id = Some t ∧
    default ""
      (configurable
         (config (returned_tuple (R_getTuple db_ab (Reference.thread_config "t"))))
       ≫= checkpoint_ns) = default "" (checkpoint_ns k) ∧
    tuple_id (returned_tuple (R_getTuple db_ab (Reference.thread_config "t")))
      = Some i ∧
    (truthy (checkpoint_id k) = true →
     checkpoint_id k = Some i ∧
     config (returned_tuple (R_getTuple db_ab (Reference.thread_config "t")))
       = Reference.thread_config "t").
Proof.
  apply (getTuple_within_partition Reference.TASKS Reference.maxChannelVersion
           Reference.getNextVersion Reference.metadata_field_eq SurplusRejected
           db_ab (Reference.thread_config "t")
           (returned_tuple (R_getTuple db_ab (Reference.thread_config "t")))).
  vm_compute. reflexivity.
Defined.

Definition no_options : option CheckpointListOptions :=
  Some {| opt_limit := None; opt_before := None; opt_filter := None |}.


Lemma list_yields_exactly_witness :
  NoDup (config <$> listed (R_list db_three (partition_config "t" "") no_options)) ∧
  ∀ c', c' ∈ config <$> listed (R_list db_three (partition_config "t" "") no_options) ↔
        ∃ t ns i c,
          c' = key_config t ns i ∧ checkpoints db_three !! (t, ns, i) = Some c ∧
          list_matching Reference.JSON_stringify Reference.metadata_field_eq
            (Some "t") (Some "") None [] ((t, ns, i), c).
Proof.
  apply (list_yields_exactly Reference.TASKS Reference.maxChannelVersion
           Reference.getNextVersion Reference.JSON_stringify
           Reference.metadata_field_eq SurplusRejected
           db_three (partition_config "t" "") None None
           (listed (R_list db_three (partition_config "t" "") no_options))).
  - discriminate.
  - vm_compute. reflexivity.
Defined.

Definition first_listed (r : result (list CheckpointTuple)) : CheckpointTuple :=
  default no_tuple (head (listed r)).

Lemma list_agrees_with_getTuple_witness :
  R_getTuple db_three
    (config (first_listed (R_list db_three (Reference.thread_config "t") None)))
  = Ok (Some (first_listed (R_list db_three (Reference.thread_config "t") None))).
Proof.
  apply (list_agrees_with_getTuple Reference.TASKS Reference.maxChannelVersion
           Reference.getNextVersion Reference.JSON_stringify
           Reference.metadata_field_eq SurplusRejected
           db_three (Reference.thread_config "t") None
           (listed (R_list db_three (Reference.thread_config "t") None))).
  - vm_compute. reflexivity.
  - apply (list_elem_of_lookup_2 _ 0%nat). vm_compute. reflexivity.
  - vm_compute. discriminate.
Defined.

Lemma list_head_is_latest_witness :
  R_getTuple db_three (partition_config "t" "")
  = Ok (head (listed (R_list db_three (partition_config "t" "") None))).
Proof.
  apply (list_head_is_latest Reference.TASKS Reference.maxChannelVersion
           Reference.getNextVersion Reference.JSON_stringify
           Reference.metadata_field_eq SurplusRejected
           db_three "t" ""
           (listed (R_list db_three (partition_config "t" "") None))).
  - discriminate.
  - vm_compute. reflexivity.
Defined.

Lemma list_ids_never_ascend_witness :
  ∃ ids,
    tuple_id <$> listed (R_list db_three (Reference.thread_config "t") None)
      = Some <$> ids ∧
    StronglySorted (flip cle) ids.
Proof.
  apply (list_ids_never_ascend Reference.TASKS Reference.maxChannelVersion
           Reference.getNextVersion Reference.JSON_stringify
           Reference.metadata_field_eq SurplusRejected
           db_three (Reference.thread_config "t") None).
  vm_compute. reflexivity.
Defined.

(** A database without the tables, that does not accept the journal mode
    WAL, and the saver methods over the reference instance. *)
Definition fresh_client : Client :=
  {| wal_accepted := false; journal_wal := false;
     table_checkpoints := None; table_writes := None |}.

Definition R_Saver_getTuple (s : Saver) (cfg : RunnableConfig)
    : Saver * result (option CheckpointTuple) :=
  Saver_getTuple Reference.TASKS Reference.maxChannelVersion
    Reference.getNextVersion Reference.metadata_field_eq SurplusRejected s cfg.

Definition R_Saver_put (s : Saver) (cfg : RunnableConfig) (c : Checkpoint)
    (m : CheckpointMetadata) : Saver * result RunnableConfig :=
  Saver_put Reference.copyCheckpoint s cfg c m.

Lemma Saver_failed_write_witness :
  (∃ e, R_Saver_put (new_SqliteSaver fresh_client) empty_config
          (Reference.bare_checkpoint 4 "a") Reference.input_metadata
        = (setup (new_SqliteSaver fresh_client), Err e)) ∧
  (∃ e, Saver_putWrites (new_SqliteSaver fresh_client) empty_config
          two_writes "t1"
        = (setup (new_SqliteSaver fresh_client), Err e)) ∧
  tables (saver_db (setup (new_SqliteSaver fresh_client))) = Some empty_db.
Proof.
  destruct (Saver_failed_write Reference.copyCheckpoint fresh_client empty_config
              (Reference.bare_checkpoint 4 "a") Reference.input_metadata
              two_writes "t1")
    as (Hput & Hwrites & _ & Htables).
  split; [apply Hput; reflexivity|].
  split; [apply Hwrites; left; reflexivity|exact Htables].
Defined.

Lemma Saver_deleteThread_without_setup_witness :
  Saver_deleteThread (new_SqliteSaver fresh_client) "t"
    = (new_SqliteSaver fresh_client, no_such_table) ∧
  (Saver_deleteThread
     (R_Saver_getTuple (new_SqliteSaver fresh_client)
        (Reference.thread_config "t")).1 "t").2 = Ok ().
Proof.
  destruct (Saver_deleteThread_without_setup Reference.TASKS
              Reference.maxChannelVersion Reference.getNextVersion
              Reference.metadata_field_eq SurplusRejected
              fresh_client (Reference.thread_config "t") "t")
    as (Hfails & Hthen & _).
  - reflexivity.
  - split; [exact Hfails|exact Hthen].
Defined.

Lemma Saver_put_getTuple_witness :
  ∃ tup,
    R_Saver_getTuple
      (R_Saver_put (new_SqliteSaver fresh_client) (Reference.thread_config "t")
         (Reference.bare_checkpoint 4 "a") Reference.input_metadata).1
      (key_config "t" "" "a")
    = ((R_Saver_put (new_SqliteSaver fresh_client) (Reference.thread_config "t")
          (Reference.bare_checkpoint 4 "a") Reference.input_metadata).1,
       Ok (Some tup)) ∧
    checkpoint tup = Reference.bare_checkpoint 4 "a" ∧
    metadata tup = Reference.input_metadata.
Proof.
  apply (Saver_put_getTuple Reference.TASKS Reference.copyCheckpoint
           Reference.maxChannelVersion Reference.getNextVersion
           Reference.metadata_field_eq SurplusRejected
           fresh_client
           (R_Saver_put (new_SqliteSaver fresh_client)
              (Reference.thread_config "t")
              (Reference.bare_checkpoint 4 "a") Reference.input_metadata).1
           (Reference.thread_config "t") (key_config "t" "" "a")
           (Reference.bare_checkpoint 4 "a") Reference.input_metadata).
  - reflexivity.
  - discriminate.
  - vm_compute. discriminate.
  - vm_compute. reflexivity.
  - vm_compute. reflexivity.
Defined.
